(** * eda-cli: the analytical core and the command surface

    The repository is a small command-line tool for exploratory data
    analysis of CSV files.  Two layers are covered here:

    - [Core]: the analytical functions of [eda_cli/core.py]
      ([summarize_dataset], [missing_table], [correlation_matrix],
      [top_categories], [compute_quality_flags]).  The sources at hand hold
      [cli.py] and the tests of the core, not [core.py] itself: the core is
      modelled from the specification (§3 and §4), and the frames of the
      tests are evaluated on the model.
    - [Checked]: the same functions over the operations that raise in
      Python (division, maximum, minimum, mean), to state that the core does
      not raise.
    - [Cli]: the command surface of [eda_cli/cli.py] ([_load_csv], [head],
      [overview], [report]), with the file system and the console as
      explicit state.

    Numbers read from a CSV file are decimal literals, so cell values are
    canonical rationals ([Qc], with Leibniz equality); derived shares and the
    quality score are rationals ([Q]); Pearson's coefficient needs a square
    root and is a real number.  Binary floating-point rounding is not part of
    the model. *)

From Stdlib Require Import QArith Qcanon Qminmax Reals Qreals Psatz.
From Stdlib Require Import String Ascii List Bool Sorted DecimalString.
From stdpp Require Import base decidable option list strings gmap numbers.

Local Open Scope string_scope.
Local Open Scope list_scope.

(* ================================================================== *)
(** * The analytical core *)
(* ================================================================== *)

Module Core.

(** ** Data model (spec §3) *)

(** Modelled from the spec: the cell values of a Table, missing from src/
    with the rest of [core.py].  A column holds numeric, text or boolean
    values; a missing value is [None]. *)
Inductive value : Type :=
  | VNum (q : Qc)
  | VText (s : string)
  | VBool (b : bool).

#[global] Instance value_eq_dec : EqDecision value.
Proof. solve_decision. Defined.

Definition cell : Type := option value.

Inductive kind : Type := Numeric | Categorical.

#[global] Instance kind_eq_dec : EqDecision kind.
Proof. solve_decision. Defined.

(** Modelled from the spec: a column of a Table (§3): its name, the kind the
    loader gave it (the dtype of the data frame) and its values, row by
    row.  The kind given by the loader is what tells a numeric column
    without a value (§4.1) from a text column without a value (§4.4). *)
Record column : Type := Column {
  col_name : string;
  col_dtype : kind;
  col_cells : list cell
}.

(** Modelled from the spec: a Table is an ordered sequence of named columns,
    rows aligned by position. *)
Definition table : Type := list column.

Definition n_rows (t : table) : nat :=
  match t with
  | [] => 0
  | c :: _ => length (col_cells c)
  end.

Definition n_cols (t : table) : nat := length t.

(** Invariant of the data model: all columns have the row count as length. *)
Definition well_formed (t : table) : Prop :=
  Forall (fun c => length (col_cells c) = n_rows t) t.

Definition is_numeric_value (v : value) : bool :=
  match v with VNum _ => true | _ => false end.

(** The non-missing values of a column, in row order. *)
Definition non_missing (cs : list cell) : list value := omap (fun c : cell => c) cs.

Definition count_missing (cs : list cell) : nat :=
  length (List.filter (fun c => match c with None => true | Some _ => false end) cs).

(** §4.1: a column is numeric when all its non-missing values are numeric,
    else categorical; a column without a non-missing value has nothing to
    check and keeps the kind it was loaded with. *)
Definition infer_kind (c : column) : kind :=
  match non_missing (col_cells c) with
  | [] => col_dtype c
  | vals => if forallb is_numeric_value vals then Numeric else Categorical
  end.

Definition is_numeric (c : column) : bool := bool_decide (infer_kind c = Numeric).

(** Distinct values in first-encountered order. *)
Fixpoint distinct (l : list value) : list value :=
  match l with
  | [] => []
  | x :: l' => x :: List.filter (fun y => negb (bool_decide (y = x))) (distinct l')
  end.

Definition occurrences (v : value) (l : list value) : nat :=
  length (List.filter (fun y => bool_decide (y = v)) l).

(** A share [a / b] of two counts; [0] when the total is [0] (§3: "missing
    share (missing/total, 0 when total is 0)"), which is also what [Qdiv]
    gives. *)
Definition share (a b : nat) : Q :=
  if (b =? 0)%nat then 0%Q else (inject_Z (Z.of_nat a) / inject_Z (Z.of_nat b))%Q.

(** ** Numeric statistics *)

Definition numbers (l : list value) : list Qc :=
  omap (fun v => match v with VNum q => Some q | _ => None end) l.

Definition Qc_min (a b : Qc) : Qc := if Qclt_le_dec b a then b else a.
Definition Qc_max (a b : Qc) : Qc := if Qclt_le_dec a b then b else a.

Definition fold1 (f : Qc -> Qc -> Qc) (l : list Qc) : option Qc :=
  match l with
  | [] => None
  | x :: l' => Some (fold_left f l' x)
  end.

Definition Qc_sum (l : list Qc) : Qc := fold_right Qcplus (Q2Qc 0) l.

Definition mean (l : list Qc) : option Qc :=
  match l with
  | [] => None
  | _ => Some (Qc_sum l / Q2Qc (inject_Z (Z.of_nat (length l))))%Qc
  end.

Definition count_zeros (l : list Qc) : nat :=
  length (List.filter (fun q => bool_decide (q = Q2Qc 0)) l).

(** ** Value counts and their ordering (§3 CategoryTable) *)

(** Counts per distinct value, in first-encountered order. *)
Definition value_counts (l : list value) : list (value * nat) :=
  map (fun v => (v, occurrences v l)) (distinct l).

(** Stable insertion sort, descending by count: an entry is placed before
    the first entry whose count is not larger, so equal counts keep their
    first-encountered order. *)
Fixpoint insert_desc (e : value * nat) (l : list (value * nat)) : list (value * nat) :=
  match l with
  | [] => [e]
  | h :: t => if (snd h <=? snd e)%nat then e :: h :: t else h :: insert_desc e t
  end.

Fixpoint sort_desc (l : list (value * nat)) : list (value * nat) :=
  match l with
  | [] => []
  | h :: t => insert_desc h (sort_desc t)
  end.

(** ** Summarizer (§4.1) *)

(** Modelled from the spec: ColumnSummary of §3.  [cs_zeros], the number of
    non-missing values equal to 0, is the numeric statistic the zero-share
    rule of §4.5 is computed from. *)
Record ColumnSummary : Type := {
  cs_name : string;
  cs_kind : kind;
  cs_non_null : nat;
  cs_missing : nat;
  cs_missing_share : Q;
  cs_unique : nat;
  cs_min : option Qc;
  cs_max : option Qc;
  cs_mean : option Qc;
  cs_zeros : nat;
  cs_top : option value
}.

Record DatasetSummary : Type := {
  ds_n_rows : nat;
  ds_n_cols : nat;
  ds_columns : list ColumnSummary
}.

Definition summarize_column (rows : nat) (c : column) : ColumnSummary :=
  let vals := non_missing (col_cells c) in
  let k := infer_kind c in
  let nums := match k with Numeric => numbers vals | Categorical => [] end in
  {| cs_name := col_name c;
     cs_kind := k;
     cs_non_null := length vals;
     cs_missing := count_missing (col_cells c);
     cs_missing_share := share (count_missing (col_cells c)) rows;
     cs_unique := length (distinct vals);
     cs_min := fold1 Qc_min nums;
     cs_max := fold1 Qc_max nums;
     cs_mean := mean nums;
     cs_zeros := count_zeros nums;
     cs_top := match k with
               | Numeric => None
               | Categorical => fst <$> head (sort_desc (value_counts vals))
               end |}.

(** Modelled from the spec: [summarize_dataset] of core.py (§4.1). *)
Definition summarize_dataset (t : table) : DatasetSummary :=
  {| ds_n_rows := n_rows t;
     ds_n_cols := n_cols t;
     ds_columns := map (summarize_column (n_rows t)) t |}.

(** ** Missing-value analyzer (§4.2) *)

Record MissingRow : Type := {
  mr_name : string;
  mr_missing_count : nat;
  mr_missing_share : Q
}.

(** One row per column of the table, in table order; empty for a table
    without columns. *)
Definition MissingTable : Type := list MissingRow.

(** Modelled from the spec: [missing_table] of core.py (§4.2). *)
Definition missing_table (t : table) : MissingTable :=
  map (fun c => {| mr_name := col_name c;
                   mr_missing_count := count_missing (col_cells c);
                   mr_missing_share := share (count_missing (col_cells c)) (n_rows t) |}) t.

(** ** Correlation engine (§4.3) *)

(** Pairwise-complete observations of two columns: the rows where both
    values are present (and numeric). *)
Fixpoint complete_pairs (xs ys : list cell) : list (Q * Q) :=
  match xs, ys with
  | x :: xs', y :: ys' =>
      match x, y with
      | Some (VNum a), Some (VNum b) => (this a, this b) :: complete_pairs xs' ys'
      | _, _ => complete_pairs xs' ys'
      end
  | _, _ => []
  end.

Definition swap_pair (p : Q * Q) : Q * Q := (snd p, fst p).

Definition Qsum (l : list Q) : Q := fold_right Qplus 0%Q l.

Definition Qmean (l : list Q) : Q := (Qsum l / inject_Z (Z.of_nat (length l)))%Q.

Definition centered (l : list Q) : list Q := map (fun x => (x - Qmean l)%Q) l.

Fixpoint dot (a b : list Q) : Q :=
  match a, b with
  | x :: a', y :: b' => (x * y + dot a' b')%Q
  | _, _ => 0%Q
  end.

(** Sums of products of the deviations from the means: the co-moment and
    the two second moments of Pearson's formula. *)
Record Moments : Type := {
  m_xy : Q;
  m_xx : Q;
  m_yy : Q
}.

Definition pearson_moments (ps : list (Q * Q)) : Moments :=
  let a := centered (map fst ps) in
  let b := centered (map snd ps) in
  {| m_xy := dot a b; m_xx := dot a a; m_yy := dot b b |}.

(** Pearson's r = m_xy / sqrt (m_xx * m_yy), a real number.  Where one of
    the two series has no variation over the pair's complete rows, the
    co-moment vanishes together with the denominator, and the quotient
    0 * / 0 of the reals is 0. *)
Definition pearson (ps : list (Q * Q)) : R :=
  let m := pearson_moments ps in
  (Q2R (m_xy m) / sqrt (Q2R (m_xx m * m_yy m)))%R.

Record CorrelationMatrix : Type := {
  cm_names : list string;
  cm_rows : list (list R)
}.

Definition cm_empty (m : CorrelationMatrix) : bool :=
  match cm_names m with [] => true | _ => false end.

Definition cm_entry (m : CorrelationMatrix) (i j : nat) : option R :=
  match cm_rows m !! i with
  | Some row => row !! j
  | None => None
  end.

(** The elements of a list with their positions. *)
Definition indexed {A : Type} (l : list A) : list (nat * A) := imap pair l.

(** The entry of two numeric columns, given with their positions among the
    numeric columns: 1.0 on the diagonal (§4.3: "Diagonal entries equal
    1.0"), else Pearson's coefficient over the rows where both columns have
    a value. *)
Definition correlation_entry (a b : nat * column) : R :=
  if (fst a =? fst b)%nat then 1%R
  else pearson (complete_pairs (col_cells (snd a)) (col_cells (snd b))).

(** Modelled from the spec: [correlation_matrix] of core.py (§4.3): empty
    with fewer than two numeric columns, else the entry of every two numeric
    columns. *)
Definition correlation_matrix (t : table) : CorrelationMatrix :=
  let nums := List.filter is_numeric t in
  if (length nums <? 2)%nat
  then {| cm_names := []; cm_rows := [] |}
  else {| cm_names := map col_name nums;
          cm_rows := map (fun a => map (correlation_entry a) (indexed nums)) (indexed nums) |}.

(** ** Category profiler (§4.4) *)

Record CategoryEntry : Type := {
  ce_value : value;
  ce_count : nat;
  ce_share : Q
}.

Definition category_table (top_k : nat) (cs : list cell) : list CategoryEntry :=
  let vals := non_missing cs in
  map (fun e => {| ce_value := fst e;
                   ce_count := snd e;
                   ce_share := share (snd e) (length vals) |})
      (firstn top_k (sort_desc (value_counts vals))).

Definition entry_pair (e : CategoryEntry) : value * nat := (ce_value e, ce_count e).

(** Descending order by count, on counted values and on table entries. *)
Definition by_count_desc (a b : value * nat) : Prop := (snd b <= snd a)%nat.

Definition by_entry_count_desc (a b : CategoryEntry) : Prop :=
  (ce_count b <= ce_count a)%nat.

(** In a list, an element that stands before another. *)
Definition before {A : Type} (l : list A) (a b : A) : Prop :=
  exists l1 l2 l3, l = l1 ++ a :: l2 ++ b :: l3.

(** First-encountered order: [a] has been seen when [b] is seen for the
    first time. *)
Definition first_seen_before (l : list value) (a b : value) : Prop :=
  exists l1 l2, l = l1 ++ b :: l2 /\ ~ In b l1 /\ In a l1.

(** Modelled from the spec: [top_categories] of core.py (§4.4): the first
    [max_columns] non-numeric columns in table order, each with its [top_k]
    most frequent values. *)
Definition top_categories (t : table) (max_columns top_k : nat)
  : list (string * list CategoryEntry) :=
  map (fun c => (col_name c, category_table top_k (col_cells c)))
      (firstn max_columns (List.filter (fun c => negb (is_numeric c)) t)).

(** ** Quality heuristics (§4.5) *)

(** The seven flag categories of QualityFlags (§3). *)
Inductive Flag : Type :=
  | TooFewRows
  | TooManyColumns
  | TooManyMissing
  | ConstantColumns
  | IdDuplicates
  | HighCardinality
  | ManyZeros.

Definition all_flags : list Flag :=
  [TooFewRows; TooManyColumns; TooManyMissing; ConstantColumns;
   IdDuplicates; HighCardinality; ManyZeros].

(** The thresholds of §4.5 as one configuration value. *)
Record Config : Type := {
  cfg_min_rows : nat;                  (* too_few_rows: n_rows < cfg_min_rows *)
  cfg_max_cols : nat;                  (* too_many_columns: n_cols > cfg_max_cols *)
  cfg_max_missing_share : Q;           (* too_many_missing: max share > this *)
  cfg_zero_share : Q;                  (* many zeros: zero_share >= this *)
  cfg_high_card_threshold : nat -> Q;  (* high cardinality: scaled by row count *)
  cfg_id_unique_ratio : Q;             (* "distinct count close to row count" *)
  cfg_penalty : Flag -> Q              (* score penalty per flag category *)
}.

(** The row-count-scaled threshold of §4.5: [max(5, row_count * 0.05)] up to
    100 rows; the bound for larger row counts is left open by the spec and
    is the parameter [large]. *)
Definition high_card_threshold (large : nat -> Q) (rows : nat) : Q :=
  if (rows <=? 100)%nat
  then Qmax 5 (inject_Z (Z.of_nat rows) * (5 # 100))
  else large rows.

(** The defaults of §4.5.  The spec fixes neither the bound above 100 rows,
    nor how close to the row count a distinct count has to be, nor the
    penalties: they are the three arguments. *)
Definition default_config (large : nat -> Q) (id_ratio : Q) (penalty : Flag -> Q) : Config :=
  {| cfg_min_rows := 10;
     cfg_max_cols := 100;
     cfg_max_missing_share := 1 # 2;
     cfg_zero_share := 8 # 10;
     cfg_high_card_threshold := high_card_threshold large;
     cfg_id_unique_ratio := id_ratio;
     cfg_penalty := penalty |}.

Definition Qlt_bool (a b : Q) : bool := negb (Qle_bool b a).

Definition Qnat (n : nat) : Q := inject_Z (Z.of_nat n).

Definition lower (a : ascii) : ascii :=
  let n := nat_of_ascii a in
  if (65 <=? n)%nat && (n <=? 90)%nat then ascii_of_nat (n + 32) else a.

Fixpoint lowercase (s : string) : string :=
  match s with
  | EmptyString => EmptyString
  | String a s' => String (lower a) (lowercase s')
  end.

Fixpoint contains (needle hay : string) : bool :=
  String.prefix needle hay ||
  match hay with
  | EmptyString => false
  | String _ hay' => contains needle hay'
  end.

(** Identifier pattern: the name contains "id", ignoring case. *)
Definition looks_like_id (name : string) : bool := contains "id" (lowercase name).

Record IdDuplicateInfo : Type := {
  idi_name : string;
  idi_duplicate_rate : Q
}.

Record HighCardinalityInfo : Type := {
  hc_name : string;
  hc_unique : nat
}.

Record ManyZerosInfo : Type := {
  mz_name : string;
  mz_zero_share : Q
}.

Record QualityFlags : Type := {
  too_few_rows : bool;
  too_many_columns : bool;
  max_missing_share : Q;
  too_many_missing : bool;
  has_constant_columns : bool;
  constant_columns : list string;
  has_suspicious_id_duplicates : bool;
  id_duplicates_info : list IdDuplicateInfo;
  has_high_cardinality_categoricals : bool;
  high_cardinality_columns : list HighCardinalityInfo;
  has_many_zero_values : bool;
  many_zero_columns : list ManyZerosInfo;
  quality_score : Q
}.

(** Maximum missing share of the table; the maximum of nothing is 0. *)
Definition max_share (mt : MissingTable) : Q :=
  match map mr_missing_share mt with
  | [] => 0%Q
  | x :: l => fold_left Qmax l x
  end.

(** Exactly one distinct value and at least one non-missing value. *)
Definition is_constant (c : ColumnSummary) : bool :=
  (cs_unique c =? 1)%nat && (0 <? cs_non_null c)%nat.

(** Candidate identifier column: by name, or a distinct count of at least
    [cfg_id_unique_ratio] of the row count. *)
Definition is_id_candidate (cfg : Config) (rows : nat) (c : ColumnSummary) : bool :=
  looks_like_id (cs_name c) ||
  Qle_bool (cfg_id_unique_ratio cfg * Qnat rows) (Qnat (cs_unique c)).

(** 1 - distinct / non-missing; a column without values has no duplicates. *)
Definition duplicate_rate (c : ColumnSummary) : Q :=
  if (cs_non_null c =? 0)%nat then 0%Q
  else (1 - share (cs_unique c) (cs_non_null c))%Q.

(** A candidate identifier column with duplicates. *)
Definition id_suspicious (cfg : Config) (rows : nat) (c : ColumnSummary) : bool :=
  is_id_candidate cfg rows c && Qlt_bool 0 (duplicate_rate c).

Definition is_high_cardinality (cfg : Config) (rows : nat) (c : ColumnSummary) : bool :=
  bool_decide (cs_kind c = Categorical) &&
  Qlt_bool (cfg_high_card_threshold cfg rows) (Qnat (cs_unique c)).

Definition zero_share (c : ColumnSummary) : Q := share (cs_zeros c) (cs_non_null c).

Definition has_many_zeros (cfg : Config) (c : ColumnSummary) : bool :=
  bool_decide (cs_kind c = Numeric) && Qle_bool (cfg_zero_share cfg) (zero_share c).

(** The sum of the penalties of the triggered flag categories. *)
Definition penalty_sum (cfg : Config) (triggered : Flag -> bool) : Q :=
  fold_right (fun f acc => ((if triggered f then cfg_penalty cfg f else 0) + acc)%Q)
             0%Q all_flags.

Definition score (cfg : Config) (triggered : Flag -> bool) : Q :=
  Qmax 0 (1 - penalty_sum cfg triggered).

Definition nonempty {A : Type} (l : list A) : bool :=
  match l with [] => false | _ => true end.

(** Modelled from the spec: [compute_quality_flags] of core.py (§4.5), with
    the thresholds as the configuration [cfg]. *)
Definition compute_quality_flags (cfg : Config) (summary : DatasetSummary)
    (missing : MissingTable) : QualityFlags :=
  let rows := ds_n_rows summary in
  let cols := ds_columns summary in
  let few := (rows <? cfg_min_rows cfg)%nat in
  let wide := (cfg_max_cols cfg <? ds_n_cols summary)%nat in
  let mx := max_share missing in
  let sparse := Qlt_bool (cfg_max_missing_share cfg) mx in
  let consts := map cs_name (List.filter is_constant cols) in
  let ids :=
    List.filter (fun i => Qlt_bool 0 (idi_duplicate_rate i))
      (map (fun c => {| idi_name := cs_name c; idi_duplicate_rate := duplicate_rate c |})
           (List.filter (is_id_candidate cfg rows) cols)) in
  let high :=
    map (fun c => {| hc_name := cs_name c; hc_unique := cs_unique c |})
        (List.filter (is_high_cardinality cfg rows) cols) in
  let zeros :=
    map (fun c => {| mz_name := cs_name c; mz_zero_share := zero_share c |})
        (List.filter (has_many_zeros cfg) cols) in
  let triggered (f : Flag) : bool :=
    match f with
    | TooFewRows => few
    | TooManyColumns => wide
    | TooManyMissing => sparse
    | ConstantColumns => nonempty consts
    | IdDuplicates => nonempty ids
    | HighCardinality => nonempty high
    | ManyZeros => nonempty zeros
    end in
  {| too_few_rows := few;
     too_many_columns := wide;
     max_missing_share := mx;
     too_many_missing := sparse;
     has_constant_columns := nonempty consts;
     constant_columns := consts;
     has_suspicious_id_duplicates := nonempty ids;
     id_duplicates_info := ids;
     has_high_cardinality_categoricals := nonempty high;
     high_cardinality_columns := high;
     has_many_zero_values := nonempty zeros;
     many_zero_columns := zeros;
     quality_score := score cfg triggered |}.

(** Which flag categories a result reports as triggered. *)
Definition flag_triggered (qf : QualityFlags) (f : Flag) : bool :=
  match f with
  | TooFewRows => too_few_rows qf
  | TooManyColumns => too_many_columns qf
  | TooManyMissing => too_many_missing qf
  | ConstantColumns => has_constant_columns qf
  | IdDuplicates => has_suspicious_id_duplicates qf
  | HighCardinality => has_high_cardinality_categoricals qf
  | ManyZeros => has_many_zero_values qf
  end.

End Core.

(* ================================================================== *)
(** * The core over operations that can raise *)
(* ================================================================== *)

(** The functions of [Core] are total by construction, so that they do not
    raise cannot be said of them.  Here the same computations are written
    over the operations that can raise in Python: a division raises
    [ZeroDivisionError] on a zero divisor, and the maximum, the minimum and
    the mean of an empty sequence raise [ValueError].  The guards the
    specification names are in place: a share over a total of 0 is 0 (§3),
    the statistics of a column without values are absent (§4.1) and the
    maximum of no missing share is 0 (§4.5).  The rates of §4.5 follow the
    same rule as the shares.  For two columns without a common row or
    without variation §4.3 names no value; the quotient is guarded there and
    is the 0 of Pearson's formula in the reals.  The shares of a category
    table are divided without a guard (§4.4). *)
Module Checked.
Import Core.

Inductive error : Type :=
  | ZeroDivisionError
  | ValueError.

Definition result (A : Type) : Type := error + A.

#[global] Instance result_ret : MRet result := fun A a => inr a.

#[global] Instance result_bind : MBind result := fun A B f m =>
  match m with
  | inl e => inl e
  | inr a => f a
  end.

(** [a / b] *)
Definition divide (a b : Q) : result Q :=
  if Qeq_bool b 0 then inl ZeroDivisionError else inr (a / b)%Q.

Definition divide_c (a b : Qc) : result Qc :=
  if bool_decide (b = Q2Qc 0) then inl ZeroDivisionError else inr (a / b)%Qc.

(** [max(l)], [min(l)] *)
Definition reduce1 {A : Type} (f : A -> A -> A) (l : list A) : result A :=
  match l with
  | [] => inl ValueError
  | x :: l' => inr (fold_left f l' x)
  end.

(** [statistics.mean(l)] *)
Definition mean (l : list Qc) : result Qc :=
  match l with
  | [] => inl ValueError
  | _ => divide_c (Qc_sum l) (Q2Qc (inject_Z (Z.of_nat (length l))))
  end.

(** [[f(x) for x in l]] *)
Fixpoint traverse {A B : Type} (f : A -> result B) (l : list A) : result (list B) :=
  match l with
  | [] => mret []
  | x :: l' => y ← f x; ys ← traverse f l'; mret (y :: ys)
  end.

(** A share of two counts, 0 when the total is 0. *)
Definition share (a b : nat) : result Q :=
  if (b =? 0)%nat then mret 0%Q else divide (Qnat a) (Qnat b).

(** A statistic of the numeric values of a column, absent without values. *)
Definition stat (f : list Qc -> result Qc) (l : list Qc) : result (option Qc) :=
  match l with
  | [] => mret None
  | _ => x ← f l; mret (Some x)
  end.

Definition summarize_column (rows : nat) (c : column) : result ColumnSummary :=
  let vals := non_missing (col_cells c) in
  let k := infer_kind c in
  let nums := match k with Numeric => numbers vals | Categorical => [] end in
  missing_share ← share (count_missing (col_cells c)) rows;
  lo ← stat (reduce1 Qc_min) nums;
  hi ← stat (reduce1 Qc_max) nums;
  avg ← stat mean nums;
  mret {| cs_name := col_name c;
          cs_kind := k;
          cs_non_null := length vals;
          cs_missing := count_missing (col_cells c);
          cs_missing_share := missing_share;
          cs_unique := length (distinct vals);
          cs_min := lo;
          cs_max := hi;
          cs_mean := avg;
          cs_zeros := count_zeros nums;
          cs_top := match k with
                    | Numeric => None
                    | Categorical => fst <$> head (sort_desc (value_counts vals))
                    end |}.

(** Modelled from the spec: [summarize_dataset] of core.py (§4.1), over
    the operations that can raise. *)
Definition summarize_dataset (t : table) : result DatasetSummary :=
  cols ← traverse (summarize_column (n_rows t)) t;
  mret {| ds_n_rows := n_rows t; ds_n_cols := n_cols t; ds_columns := cols |}.

(** Modelled from the spec: [missing_table] of core.py (§4.2), over the
    operations that can raise. *)
Definition missing_table (t : table) : result MissingTable :=
  traverse (fun c =>
              s ← share (count_missing (col_cells c)) (n_rows t);
              mret {| mr_name := col_name c;
                      mr_missing_count := count_missing (col_cells c);
                      mr_missing_share := s |}) t.

Definition Qmean (l : list Q) : result Q := divide (Qsum l) (Qnat (length l)).

Definition centered (l : list Q) : result (list Q) :=
  m ← Qmean l; mret (map (fun x => (x - m)%Q) l).

Definition pearson (ps : list (Q * Q)) : result R :=
  match ps with
  | [] => mret 0%R
  | _ =>
      a ← centered (map fst ps);
      b ← centered (map snd ps);
      let d := (dot a a * dot b b)%Q in
      if Qeq_bool d 0 then mret 0%R
      else mret (Q2R (dot a b) / sqrt (Q2R d))%R
  end.

Definition correlation_entry (a b : nat * column) : result R :=
  if (fst a =? fst b)%nat then mret 1%R
  else pearson (complete_pairs (col_cells (snd a)) (col_cells (snd b))).

(** Modelled from the spec: [correlation_matrix] of core.py (§4.3), over
    the operations that can raise. *)
Definition correlation_matrix (t : table) : result CorrelationMatrix :=
  let nums := List.filter is_numeric t in
  if (length nums <? 2)%nat
  then mret {| cm_names := []; cm_rows := [] |}
  else rows ← traverse (fun a => traverse (correlation_entry a) (indexed nums)) (indexed nums);
       mret {| cm_names := map col_name nums; cm_rows := rows |}.

Definition category_table (top_k : nat) (cs : list cell) : result (list CategoryEntry) :=
  let vals := non_missing cs in
  traverse (fun e =>
              s ← divide (Qnat (snd e)) (Qnat (length vals));
              mret {| ce_value := fst e; ce_count := snd e; ce_share := s |})
           (firstn top_k (sort_desc (value_counts vals))).

(** Modelled from the spec: [top_categories] of core.py (§4.4), over the
    operations that can raise. *)
Definition top_categories (t : table) (max_columns top_k : nat)
  : result (list (string * list CategoryEntry)) :=
  traverse (fun c => tbl ← category_table top_k (col_cells c); mret (col_name c, tbl))
           (firstn max_columns (List.filter (fun c => negb (is_numeric c)) t)).

(** Maximum missing share of the table; the maximum of nothing is 0. *)
Definition max_share (mt : MissingTable) : result Q :=
  match mt with
  | [] => mret 0%Q
  | _ => reduce1 Qmax (map mr_missing_share mt)
  end.

Definition duplicate_rate (c : ColumnSummary) : result Q :=
  if (cs_non_null c =? 0)%nat then mret 0%Q
  else r ← divide (Qnat (cs_unique c)) (Qnat (cs_non_null c)); mret (1 - r)%Q.

Definition zero_share (c : ColumnSummary) : result Q := share (cs_zeros c) (cs_non_null c).

(** Modelled from the spec: [compute_quality_flags] of core.py (§4.5),
    over the operations that can raise. *)
Definition compute_quality_flags (cfg : Config) (summary : DatasetSummary)
    (missing : MissingTable) : result QualityFlags :=
  let rows := ds_n_rows summary in
  let cols := ds_columns summary in
  let few := (rows <? cfg_min_rows cfg)%nat in
  let wide := (cfg_max_cols cfg <? ds_n_cols summary)%nat in
  mx ← max_share missing;
  let sparse := Qlt_bool (cfg_max_missing_share cfg) mx in
  let consts := map cs_name (List.filter is_constant cols) in
  rated ← traverse (fun c => r ← duplicate_rate c;
                             mret {| idi_name := cs_name c; idi_duplicate_rate := r |})
                   (List.filter (is_id_candidate cfg rows) cols);
  let ids := List.filter (fun i => Qlt_bool 0 (idi_duplicate_rate i)) rated in
  let high :=
    map (fun c => {| hc_name := cs_name c; hc_unique := cs_unique c |})
        (List.filter (is_high_cardinality cfg rows) cols) in
  shares ← traverse (fun c => z ← zero_share c;
                              mret {| mz_name := cs_name c; mz_zero_share := z |})
                    (List.filter (fun c => bool_decide (cs_kind c = Numeric)) cols);
  let zeros := List.filter (fun z => Qle_bool (cfg_zero_share cfg) (mz_zero_share z)) shares in
  let triggered (f : Flag) : bool :=
    match f with
    | TooFewRows => few
    | TooManyColumns => wide
    | TooManyMissing => sparse
    | ConstantColumns => nonempty consts
    | IdDuplicates => nonempty ids
    | HighCardinality => nonempty high
    | ManyZeros => nonempty zeros
    end in
  mret {| too_few_rows := few;
          too_many_columns := wide;
          max_missing_share := mx;
          too_many_missing := sparse;
          has_constant_columns := nonempty consts;
          constant_columns := consts;
          has_suspicious_id_duplicates := nonempty ids;
          id_duplicates_info := ids;
          has_high_cardinality_categoricals := nonempty high;
          high_cardinality_columns := high;
          has_many_zero_values := nonempty zeros;
          many_zero_columns := zeros;
          quality_score := score cfg triggered |}.

End Checked.

(* ================================================================== *)
(** * The data frames of tests/test_core.py *)
(* ================================================================== *)

Module Frames.
Import Core.

Definition num (z : Z) : cell := Some (VNum (Q2Qc (inject_Z z))).
Definition dec (n : Z) (d : positive) : cell := Some (VNum (Q2Qc (n # d))).
Definition txt (s : string) : cell := Some (VText s).
Definition nums (l : list Z) : list cell := map num l.
Definition txts (l : list string) : list cell := map txt l.

(** [list(range(lo, lo + step * n, step))] *)
Definition zrange (lo step : Z) (n : nat) : list Z :=
  map (fun i => (lo + step * Z.of_nat i)%Z) (seq 0 n).

(** [l * n] on Python lists. *)
Fixpoint repeat_list {A : Type} (l : list A) (n : nat) : list A :=
  match n with
  | O => []
  | S n' => l ++ repeat_list l n'
  end.

(** [_sample_df] *)
Definition sample_df : table :=
  [ Column "age" Numeric [num 10; num 20; num 30; None];
    Column "height" Numeric (nums [140; 150; 160; 170]%Z);
    Column "city" Categorical [txt "A"; txt "B"; txt "A"; None] ].

(** [_test_df_for_quality_heuristics] *)
Definition heuristics_df : table :=
  [ Column "user_id" Numeric (nums [1001; 1002; 1003; 1003; 1005]%Z);
    Column "country" Categorical (txts ["RU"; "RU"; "RU"; "RU"; "RU"]);
    Column "category" Categorical (txts ["A"; "A"; "A"; "A"; "A"]);
    Column "revenue" Numeric (nums [0; 0; 0; 0; 0]%Z);
    Column "name" Categorical (txts ["User_0"; "User_1"; "User_2"; "User_3"; "User_4"]);
    Column "value" Numeric [dec 15 10; dec 23 10; dec 31 10; None; dec 42 10] ].

(** The frame of [test_quality_flags_no_issues]: 100 rows. *)
Definition clean_df : table :=
  [ Column "id" Numeric (nums (zrange 1 1 100));
    Column "value" Numeric (nums (zrange 10 10 100));
    Column "category" Categorical (txts (repeat_list ["A"; "B"; "C"; "D"; "E"] 20)) ].

(** The frame of [test_quality_flags_mixed_scenario]: 10 rows. *)
Definition mixed_df : table :=
  [ Column "user_id" Numeric (nums (zrange 1 1 10));
    Column "status" Categorical (txts (repeat_list ["active"] 10));
    Column "score" Numeric (nums (zrange 85 1 10));
    Column "category" Categorical (txts ["A"; "A"; "B"; "B"; "C"; "C"; "D"; "D"; "A"; "B"]);
    Column "zero_col" Numeric (nums [0; 0; 1; 2; 3; 0; 1; 2; 0; 3]%Z) ].

(** A frame with 21 text columns, named a to u. *)
Definition wide_df : table :=
  map (fun i => Column (String (ascii_of_nat (97 + i)) EmptyString) Categorical
                       [txt "x"; txt "y"])
      (seq 0 21).

(** A text column whose most frequent value comes last, next to a text
    column without a value. *)
Definition letters_df : table :=
  [ Column "letter" Categorical (txts ["A"; "B"; "C"; "C"; "C"]);
    Column "blank" Categorical [None; None; None; None; None] ].

(** A table with the given columns, by name and kind, and no rows. *)
Definition zero_rows (cols : list (string * kind)) : table :=
  map (fun c => Column (fst c) (snd c) []) cols.

(** The summary of a column without rows. *)
Definition empty_column_summary (c : string * kind) : ColumnSummary :=
  {| cs_name := fst c; cs_kind := snd c; cs_non_null := 0; cs_missing := 0;
     cs_missing_share := 0%Q; cs_unique := 0; cs_min := None; cs_max := None;
     cs_mean := None; cs_zeros := 0; cs_top := None |}.

(** The defaults of §4.5 with sample values for what the spec leaves open:
    a bound of 50 distinct values above 100 rows, identifier candidates from
    90% distinct values, a penalty of 0.1 per flag category. *)
Definition sample_config : Config :=
  default_config (fun _ => 50%Q) (9 # 10) (fun _ => 1 # 10).

Definition clean_summary : DatasetSummary :=
  Eval vm_compute in summarize_dataset clean_df.

Definition mixed_summary : DatasetSummary :=
  Eval vm_compute in summarize_dataset mixed_df.

Definition heuristics_summary : DatasetSummary :=
  Eval vm_compute in summarize_dataset heuristics_df.

End Frames.

(* ================================================================== *)
(** * The command surface (cli.py) *)
(* ================================================================== *)

Module Cli.
Import Core.

(** ** Paths, file system, exceptions *)

(** A path is its list of components, relative to the working directory;
    [[]] is the working directory itself. *)
Definition Path : Type := list string.

(** [str(p)]; the working directory prints as a dot. *)
Definition path_str (p : Path) : string :=
  match p with
  | [] => "."
  | _ => String.concat "/" p
  end.

(** [Path(p).name] *)
Definition path_name (p : Path) : string := List.last p "".

(** [p / name] *)
Definition path_join (p : Path) (name : string) : Path := p ++ [name].

Definition path_parent (p : Path) : Path := removelast p.

(** What the operating system answers for a path: a directory, a regular
    file, or an [OSError] on every access to it (a name longer than the file
    system allows, a directory that may not be searched), given by its class
    and text. *)
Inductive node : Type :=
  | Dir
  | File (content : string)
  | Denied (cls msg : string).

(** Python exceptions: [typer.BadParameter] with its message and the
    exception it was raised from, and every other exception with its class
    name and text. *)
#[warnings="-register-all"]
Inductive exn : Type :=
  | BadParameter (msg : string) (cause : option exn)
  | Raised (cls : string) (msg : string).

(** [str(exc)] *)
Definition exn_str (e : exn) : string :=
  match e with
  | BadParameter msg _ => msg
  | Raised _ msg => msg
  end.

Definition is_bad_parameter (e : exn) : bool :=
  match e with BadParameter _ _ => true | Raised _ _ => false end.

(** The calls that leave the process: reads, directory creation, writes
    and console output, in program order. *)
Inductive event : Type :=
  | EvReadCsv (p : Path) (sep encoding : string)
  | EvMkdir (p : Path)
  | EvWrite (p : Path)
  | EvEcho (line : string).

Record World : Type := {
  w_fs : gmap Path node;
  w_trace : list event
}.

Definition fs_lookup (fs : gmap Path node) (p : Path) : option node :=
  match p with
  | [] => Some Dir
  | _ => fs !! p
  end.

Definition is_read_csv (e : event) : bool :=
  match e with EvReadCsv _ _ _ => true | _ => false end.

(** ** Commands as state transformers that may raise *)

Definition IO (A : Type) : Type := World -> (exn + A) * World.

#[global] Instance io_ret : MRet IO := fun A a w => (inr a, w).

#[global] Instance io_bind : MBind IO := fun A B f m w =>
  match m w with
  | (inl e, w') => (inl e, w')
  | (inr a, w') => f a w'
  end.

Definition raise {A : Type} (e : exn) : IO A := fun w => (inl e, w).

(** [try: body  except Exception as exc: handler exc] *)
Definition try_except {A : Type} (body : IO A) (handler : exn -> IO A) : IO A := fun w =>
  match body w with
  | (inl e, w') => handler e w'
  | (inr a, w') => (inr a, w')
  end.

Definition log (e : event) (w : World) : World :=
  {| w_fs := w_fs w; w_trace := w_trace w ++ [e] |}.

(** [typer.echo] *)
Definition echo (line : string) : IO unit := fun w => (inr tt, log (EvEcho line) w).

Definition is_denied (o : option node) : bool :=
  match o with Some (Denied _ _) => true | _ => false end.

(** [path.exists()]: [os.stat] on the path; a missing path gives [False],
    any other [OSError] of the operating system is raised. *)
Definition path_exists (p : Path) : IO bool := fun w =>
  match fs_lookup (w_fs w) p with
  | Some (Denied cls msg) => (inl (Raised cls msg), w)
  | Some _ => (inr true, w)
  | None => (inr false, w)
  end.

(** The non-empty prefixes of a path, shortest first: the directories
    [mkdir(parents=True)] goes through. *)
Definition prefixes (p : Path) : list Path :=
  map (fun k => firstn k p) (seq 1 (length p)).

Definition is_file (o : option node) : bool :=
  match o with Some (File _) => true | _ => false end.

(** A path at which no directory can be made. *)
Definition blocks_mkdir (o : option node) : bool := is_file o || is_denied o.

(** [p.mkdir(parents=True, exist_ok=True)]: goes through [p] and its
    ancestors and fails at the first that is a regular file or that the
    operating system refuses, else creates what is missing. *)
Definition mkdir_parents (p : Path) : IO unit := fun w =>
  let w1 := log (EvMkdir p) w in
  match List.find (fun q => blocks_mkdir (fs_lookup (w_fs w) q)) (prefixes p) with
  | Some q =>
      (inl (match fs_lookup (w_fs w) q with
            | Some (Denied cls msg) => Raised cls msg
            | _ => Raised (if bool_decide (q = p) then "FileExistsError"
                           else "NotADirectoryError") (path_str q)
            end), w1)
  | None =>
      (inr tt, {| w_fs := fold_right (fun q fs => <[q := Dir]> fs) (w_fs w) (prefixes p);
                  w_trace := w_trace w1 |})
  end.

(** Writing a whole file ([to_csv], [open("w")]): the parent has to be a
    directory, and the target must not be one nor be refused. *)
Definition write_file (p : Path) (content : string) : IO unit := fun w =>
  let w1 := log (EvWrite p) w in
  match fs_lookup (w_fs w) (path_parent p), fs_lookup (w_fs w) p with
  | Some Dir, Some Dir => (inl (Raised "IsADirectoryError" (path_str p)), w1)
  | Some Dir, Some (Denied cls msg) => (inl (Raised cls msg), w1)
  | Some Dir, _ => (inr tt, {| w_fs := <[p := File content]> (w_fs w); w_trace := w_trace w1 |})
  | Some (Denied cls msg), _ => (inl (Raised cls msg), w1)
  | _, _ => (inl (Raised "FileNotFoundError" (path_str p)), w1)
  end.

Definition when (b : bool) (m : IO unit) : IO unit := if b then m else mret tt.

Definition nl : string := String (ascii_of_nat 10) EmptyString.

Definition string_of_Z (z : Z) : string := NilZero.string_of_int (Z.to_int z).

Definition string_of_nat (n : nat) : string := string_of_Z (Z.of_nat n).

(** [df.head(n)] of pandas: the first [n] rows, and for a negative [n] all
    rows but the last [-n]. *)
Definition df_head (n : Z) (df : table) : table :=
  map (fun c =>
         let cells := col_cells c in
         Column (col_name c) (col_dtype c)
                (if (0 <=? n)%Z then firstn (Z.to_nat n) cells
                 else firstn (length cells - Z.to_nat (- n)) cells)) df.

Record ReportOptions : Type := {
  out_dir : Path;
  sep : string;
  encoding : string;
  max_hist_columns : Z;
  top_k_categories : Z;
  title : string;
  min_missing_share : Q
}.

(** The defaults of the [typer.Option] declarations of [report]. *)
Definition default_options : ReportOptions :=
  {| out_dir := ["reports"];
     sep := ",";
     encoding := "utf-8";
     max_hist_columns := 6;
     top_k_categories := 5;
     title := "EDA-отчёт";
     min_missing_share := 1 # 10 |}.

(** What [report] computes from the loaded frame before it writes. *)
Record ReportData : Type := {
  rd_summary : DatasetSummary;
  rd_missing : MissingTable;
  rd_corr : CorrelationMatrix;
  rd_top_cats : list (string * list CategoryEntry);
  rd_quality_flags : QualityFlags;
  rd_problematic_cols : list string
}.

Section Commands.

(** pandas' CSV parser on the content of a file. *)
Variable parse_csv : string -> string -> string -> exn + table.

(** Text renderings of pandas and of the report writer. *)
Variable df_to_string : table -> string.
Variable summary_to_string : DatasetSummary -> string.
Variable summary_to_csv : DatasetSummary -> string.
Variable missing_to_csv : MissingTable -> string.
Variable corr_to_csv : CorrelationMatrix -> string.
Variable render_markdown : string -> ReportOptions -> ReportData -> string.
Variable format_percent : Q -> string.

(** The chart and table writers of [viz.py]. *)
Variable save_top_categories_tables : list (string * list CategoryEntry) -> Path -> IO unit.
Variable plot_histograms_per_column : table -> Path -> Z -> IO unit.
Variable plot_missing_matrix : table -> Path -> IO unit.
Variable plot_correlation_heatmap : table -> Path -> IO unit.

(** The thresholds [compute_quality_flags] uses when called with two
    arguments. *)
Variable core_config : Config.

(** [pd.read_csv(path, sep=sep, encoding=encoding)] *)
Definition pd_read_csv (path : Path) (sep encoding : string) : IO table := fun w =>
  let w1 := log (EvReadCsv path sep encoding) w in
  match fs_lookup (w_fs w) path with
  | Some (File content) =>
      match parse_csv content sep encoding with
      | inl e => (inl e, w1)
      | inr df => (inr df, w1)
      end
  | Some Dir => (inl (Raised "IsADirectoryError" (path_str path)), w1)
  | Some (Denied cls msg) => (inl (Raised cls msg), w1)
  | None => (inl (Raised "FileNotFoundError" (path_str path)), w1)
  end.

Definition _load_csv (path : Path) (sep encoding : string) : IO table :=
  found ← path_exists path;
  if negb found
  then raise (BadParameter ("Файл '" ++ path_str path ++ "' не найден") None)
  else try_except (pd_read_csv path sep encoding)
         (fun exc => raise (BadParameter ("Не удалось прочитать CSV: " ++ exn_str exc)
                                         (Some exc))).

Definition head (path : Path) (n : Z) (sep encoding : string) : IO unit :=
  df ← _load_csv path sep encoding;
  let rows := Z.of_nat (n_rows df) in
  n' ← (if (rows <? n)%Z
        then echo ("Запрошено " ++ string_of_Z n ++ " строк, но в файле всего "
                   ++ string_of_Z rows ++ " строк.");;
             echo ("Будут выведены все " ++ string_of_Z rows ++ " строк:" ++ nl);;
             mret rows
        else echo ("Первые " ++ string_of_Z n ++ " строк из " ++ string_of_Z rows ++ ":" ++ nl);;
             mret n);
  echo (df_to_string (df_head n' df));;
  echo (nl ++ "Всего строк: " ++ string_of_Z rows ++ ", столбцов: "
        ++ string_of_nat (n_cols df));;
  echo ("Столбцы: " ++ String.concat ", " (map col_name df)).

Definition overview (path : Path) (sep encoding : string) : IO unit :=
  df ← _load_csv path sep encoding;
  let summary := summarize_dataset df in
  echo ("Строк: " ++ string_of_nat (ds_n_rows summary));;
  echo ("Столбцов: " ++ string_of_nat (ds_n_cols summary));;
  echo (nl ++ "Колонки:");;
  echo (summary_to_string summary).

(** Steps 1 and 2 of [report]: the analysis of the loaded frame. *)
Definition report_analysis (o : ReportOptions) (df : table) : ReportData :=
  let summary := summarize_dataset df in
  let missing_df := missing_table df in
  let corr_df := correlation_matrix df in
  let top_cats := top_categories df 20 (Z.to_nat (top_k_categories o)) in
  let quality_flags := compute_quality_flags core_config summary missing_df in
  let problematic_cols :=
    if nonempty missing_df
    then map mr_name
           (List.filter (fun r => Qle_bool (min_missing_share o) (mr_missing_share r)) missing_df)
    else [] in
  {| rd_summary := summary;
     rd_missing := missing_df;
     rd_corr := corr_df;
     rd_top_cats := top_cats;
     rd_quality_flags := quality_flags;
     rd_problematic_cols := problematic_cols |}.

Definition report (path : Path) (o : ReportOptions) : IO unit :=
  let out_root := out_dir o in
  mkdir_parents out_root;;
  df ← _load_csv path (sep o) (encoding o);
  let d := report_analysis o df in
  write_file (path_join out_root "summary.csv") (summary_to_csv (rd_summary d));;
  when (nonempty (rd_missing d))
       (write_file (path_join out_root "missing.csv") (missing_to_csv (rd_missing d)));;
  when (negb (cm_empty (rd_corr d)))
       (write_file (path_join out_root "correlation.csv") (corr_to_csv (rd_corr d)));;
  save_top_categories_tables (rd_top_cats d) (path_join out_root "top_categories");;
  let md_path := path_join out_root "report.md" in
  write_file md_path (render_markdown (path_name path) o d);;
  plot_histograms_per_column df out_root (max_hist_columns o);;
  plot_missing_matrix df (path_join out_root "missing_matrix.png");;
  plot_correlation_heatmap df (path_join out_root "correlation_heatmap.png");;
  echo ("Отчёт '" ++ title o ++ "' сгенерирован в каталоге: " ++ path_str out_root);;
  echo ("- Основной markdown: " ++ path_str md_path);;
  echo "- Табличные файлы: summary.csv, missing.csv, correlation.csv, top_categories/*.csv";;
  echo "- Графики: hist_*.png, missing_matrix.png, correlation_heatmap.png";;
  when (nonempty (rd_problematic_cols d))
       (echo ("- Проблемные колонки (пропуски ≥ " ++ format_percent (min_missing_share o)
              ++ "): " ++ string_of_nat (length (rd_problematic_cols d)) ++ " шт.")).

End Commands.

End Cli.

(** Sample worlds and a sample parser for concrete runs. *)
Module Worlds.
Import Core Frames Cli.

(** A parser that accepts one content, as the sample frame. *)
Definition sample_parse (content sep encoding : string) : exn + table :=
  if String.eqb content "a,b" then inr sample_df
  else inl (Raised "ParserError" "Error tokenizing data").

Definition sample_world : World :=
  {| w_fs := {[ ["data.csv"] := File "a,b" ]}; w_trace := [] |}.

Definition empty_world : World := {| w_fs := ∅; w_trace := [] |}.

(** A file name of 304 bytes, beyond the 255 a file system allows, and a
    world where the operating system answers accordingly. *)
Definition long_name : string := String.concat "" (repeat "a" 300) +:+ ".csv".

Definition long_name_world : World :=
  {| w_fs := {[ [long_name] := Denied "OSError" "[Errno 36] File name too long" ]};
     w_trace := [] |}.

(** The empty world after [mkdir] of the default output directory. *)
Definition reports_world : World :=
  {| w_fs := <[["reports"] := Dir]> ∅; w_trace := [EvMkdir ["reports"]] |}.

(** Silent stand-ins for the writers of [viz.py]. *)
Definition no_tables (_ : list (string * list CategoryEntry)) (_ : Path) : IO unit := mret tt.
Definition no_histograms (_ : table) (_ : Path) (_ : Z) : IO unit := mret tt.
Definition no_plot (_ : table) (_ : Path) : IO unit := mret tt.

End Worlds.

(** What the commands print and what the writers of [viz.py] are expected
    to leave alone. *)
Module Contracts.
Import Core Cli.

(** An action leaves the entry of the path [p] as it is. *)
Definition keeps {A : Type} (p : Path) (m : IO A) : Prop :=
  forall w, w_fs (snd (m w)) !! p = w_fs w !! p.

(** The files [report] writes itself, in the output directory [out]. *)
Definition report_files (out : Path) : list Path :=
  [ path_join out "summary.csv"; path_join out "missing.csv";
    path_join out "correlation.csv"; path_join out "report.md" ].

(** The closing lines of [head]: the size of the table and its columns. *)
Definition head_totals (df : table) : string :=
  nl +:+ "Всего строк: " +:+ string_of_Z (Z.of_nat (n_rows df)) +:+ ", столбцов: "
     +:+ string_of_nat (n_cols df).

Definition head_columns (df : table) : string :=
  "Столбцы: " +:+ String.concat ", " (map col_name df).

(** The closing lines of [report]. *)
Definition report_done (o : ReportOptions) : list string :=
  [ "Отчёт '" +:+ title o +:+ "' сгенерирован в каталоге: " +:+ path_str (out_dir o);
    "- Основной markdown: " +:+ path_str (path_join (out_dir o) "report.md");
    "- Табличные файлы: summary.csv, missing.csv, correlation.csv, top_categories/*.csv";
    "- Графики: hist_*.png, missing_matrix.png, correlation_heatmap.png" ].

(** A parser that accepts every content, as a frame with one text column,
    and a world with one input file next to a stale table of an earlier
    report. *)
Definition city_df : table :=
  [Column "city" Categorical [Some (VText "A"); Some (VText "B")]].

Definition city_parse (content sep encoding : string) : exn + table := inr city_df.

Definition rerun_world : World :=
  {| w_fs := <[["reports"; "correlation.csv"] := File "old"]>
               (<[["reports"] := Dir]> {[ ["data.csv"] := File "city" ]});
     w_trace := [] |}.

(** The default options with a missing-share threshold of one half. *)
Definition strict_options : ReportOptions :=
  {| out_dir := ["reports"]; sep := ","; encoding := "utf-8"; max_hist_columns := 6;
     top_k_categories := 5; title := "EDA-отчёт"; min_missing_share := 1 # 2 |}.

(** Writers in the manner of [viz.py]: a chart goes to the file it is
    given, the histograms of the first [k] numeric columns to
    [hist_<column>.png] in the directory given, and the table of every
    profiled column to [<column>.csv] in the directory given, which is
    created first. *)
Fixpoint for_each {A : Type} (f : A -> IO unit) (l : list A) : IO unit :=
  match l with
  | [] => mret tt
  | x :: l' => f x;; for_each f l'
  end.

Definition chart_writer (_ : table) (file : Path) : IO unit := write_file file "png".

Definition histogram_writer (df : table) (dir : Path) (k : Z) : IO unit :=
  for_each (fun c => write_file (path_join dir ("hist_" +:+ col_name c +:+ ".png")) "png")
           (firstn (Z.to_nat k) (List.filter is_numeric df)).

Definition table_writer (tc : list (string * list CategoryEntry)) (dir : Path) : IO unit :=
  mkdir_parents dir;;
  for_each (fun t => write_file (path_join dir (fst t +:+ ".csv")) "csv") tc.

(** A world where the name of the output directory is taken by a file. *)
Definition blocked_world : World :=
  {| w_fs := {[ ["reports"] := File "notes" ]}; w_trace := [] |}.

End Contracts.

(* ================================================================== *)
(** * Properties of the analytical core *)
(* ================================================================== *)

Module CoreFacts.
Import Core Frames.

Local Open Scope Q_scope.

(** ** Lists *)

Lemma nonempty_map {A B : Type} (f : A -> B) (l : list A) :
  nonempty (map f l) = nonempty l.
Proof. destruct l; reflexivity. Qed.

Lemma nonempty_filter {A : Type} (p : A -> bool) (l : list A) :
  nonempty (List.filter p l) = existsb p l.
Proof.
  induction l as [|x l IH]; simpl; [reflexivity|].
  destruct (p x); simpl; [reflexivity|exact IH].
Qed.

Lemma filter_map_comm {A B : Type} (f : A -> B) (p : B -> bool) (l : list A) :
  List.filter p (map f l) = map f (List.filter (fun x => p (f x)) l).
Proof.
  induction l as [|x l IH]; simpl; [reflexivity|].
  destruct (p (f x)); simpl; rewrite IH; reflexivity.
Qed.

Lemma filter_filter_and {A : Type} (p q : A -> bool) (l : list A) :
  List.filter p (List.filter q l) = List.filter (fun x => q x && p x) l.
Proof.
  induction l as [|x l IH]; simpl; [reflexivity|].
  destruct (q x); simpl; [destruct (p x)|]; rewrite IH; reflexivity.
Qed.

Lemma nonempty_true_iff {A : Type} (l : list A) : nonempty l = true <-> l <> [].
Proof. destruct l; simpl; split; congruence. Qed.

(** ** The flags as functions of the column summaries *)

Lemma flag_triggered_compute cfg summary missing f :
  flag_triggered (compute_quality_flags cfg summary missing) f =
  match f with
  | TooFewRows => (ds_n_rows summary <? cfg_min_rows cfg)%nat
  | TooManyColumns => (cfg_max_cols cfg <? ds_n_cols summary)%nat
  | TooManyMissing => Qlt_bool (cfg_max_missing_share cfg) (max_share missing)
  | ConstantColumns => existsb is_constant (ds_columns summary)
  | IdDuplicates => existsb (id_suspicious cfg (ds_n_rows summary)) (ds_columns summary)
  | HighCardinality =>
      existsb (is_high_cardinality cfg (ds_n_rows summary)) (ds_columns summary)
  | ManyZeros => existsb (has_many_zeros cfg) (ds_columns summary)
  end.
Proof.
  destruct f; simpl; try reflexivity.
  - rewrite nonempty_map. apply nonempty_filter.
  - rewrite filter_map_comm, nonempty_map, filter_filter_and. apply nonempty_filter.
  - rewrite nonempty_map. apply nonempty_filter.
  - rewrite nonempty_map. apply nonempty_filter.
Qed.

Lemma quality_score_compute cfg summary missing :
  quality_score (compute_quality_flags cfg summary missing) =
  score cfg (flag_triggered (compute_quality_flags cfg summary missing)).
Proof.
  unfold compute_quality_flags, score, penalty_sum. simpl. reflexivity.
Qed.

(** ** The score *)

Lemma penalty_sum_list_nonneg cfg (trig : Flag -> bool) (fs : list Flag) :
  (forall f, 0 < cfg_penalty cfg f) ->
  0 <= fold_right (fun f acc => (if trig f then cfg_penalty cfg f else 0) + acc) 0 fs.
Proof.
  intros Hp. induction fs as [|f fs IH]; cbn [fold_right]; [lra|].
  specialize (Hp f). destruct (trig f); lra.
Qed.

Lemma penalty_sum_list_none cfg (trig : Flag -> bool) (fs : list Flag) :
  (forall f, In f fs -> trig f = false) ->
  fold_right (fun f acc => (if trig f then cfg_penalty cfg f else 0) + acc) 0 fs == 0.
Proof.
  induction fs as [|f fs IH]; cbn [fold_right]; intros H; [reflexivity|].
  rewrite (H f (or_introl eq_refl)).
  assert (E : forall g, In g fs -> trig g = false) by (intros g Hg; apply H; right; exact Hg).
  specialize (IH E). lra.
Qed.

Lemma penalty_sum_list_some cfg (trig : Flag -> bool) (fs : list Flag) f :
  (forall g, 0 < cfg_penalty cfg g) ->
  In f fs -> trig f = true ->
  0 < fold_right (fun f acc => (if trig f then cfg_penalty cfg f else 0) + acc) 0 fs.
Proof.
  intros Hp. induction fs as [|g fs IH]; cbn [fold_right]; [intros []|].
  intros [->|Hin] Ht.
  - rewrite Ht. pose proof (penalty_sum_list_nonneg cfg trig fs Hp). specialize (Hp f). lra.
  - specialize (IH Hin Ht). specialize (Hp g). destruct (trig g); lra.
Qed.

Lemma all_flags_complete f : In f all_flags.
Proof. destruct f; simpl; tauto. Qed.

Lemma score_range cfg trig :
  (forall f, 0 < cfg_penalty cfg f) -> 0 <= score cfg trig <= 1.
Proof.
  intros Hp. unfold score.
  pose proof (penalty_sum_list_nonneg cfg trig all_flags Hp) as Hn.
  fold (penalty_sum cfg trig) in Hn.
  destruct (Q.max_spec 0 (1 - penalty_sum cfg trig)) as [[H1 H2]|[H1 H2]]; rewrite H2; lra.
Qed.

Lemma score_no_flag cfg trig :
  (forall f, trig f = false) -> score cfg trig == 1.
Proof.
  intros H. unfold score.
  assert (E : penalty_sum cfg trig == 0)
    by (apply penalty_sum_list_none; intros f _; apply H).
  destruct (Q.max_spec 0 (1 - penalty_sum cfg trig)) as [[H1 H2]|[H1 H2]]; rewrite H2; lra.
Qed.

Lemma score_some_flag cfg trig f :
  (forall g, 0 < cfg_penalty cfg g) -> trig f = true -> score cfg trig < 1.
Proof.
  intros Hp Ht. unfold score.
  pose proof (penalty_sum_list_some cfg trig all_flags f Hp (all_flags_complete f) Ht) as Hs.
  fold (penalty_sum cfg trig) in Hs.
  destruct (Q.max_spec 0 (1 - penalty_sum cfg trig)) as [[H1 H2]|[H1 H2]]; rewrite H2; lra.
Qed.

(** ** Scenario frames *)

(** Turns the counts of a concrete summary into numerals. *)
Ltac eval_counts :=
  unfold Qnat, inject_Z;
  repeat match goal with
  | |- context [Z.of_nat ?n] =>
      let v := eval vm_compute in (Z.of_nat n) in
      lazymatch v with
      | context [Z.of_nat] => fail
      | _ => change (Z.of_nat n) with v
      end
  end.

Lemma clean_summary_eq : summarize_dataset clean_df = clean_summary.
Proof. vm_compute. reflexivity. Qed.

Lemma mixed_summary_eq : summarize_dataset mixed_df = mixed_summary.
Proof. vm_compute. reflexivity. Qed.

Lemma heuristics_summary_eq : summarize_dataset heuristics_df = heuristics_summary.
Proof. vm_compute. reflexivity. Qed.

Lemma not_candidate cfg rows c :
  looks_like_id (cs_name c) = false ->
  Qnat (cs_unique c) < cfg_id_unique_ratio cfg * Qnat rows ->
  is_id_candidate cfg rows c = false.
Proof.
  intros Hn Hlt. unfold is_id_candidate. rewrite Hn. simpl.
  destruct (Qle_bool _ _) eqn:E; [|reflexivity].
  apply Qle_bool_iff in E. lra.
Qed.

(** A column is not reported as a duplicated identifier when it has no
    duplicates, or when it is no candidate at all. *)
Lemma id_suspicious_false cfg rows c :
  Qlt_bool 0 (duplicate_rate c) = false \/
  (looks_like_id (cs_name c) = false /\
   Qnat (cs_unique c) < cfg_id_unique_ratio cfg * Qnat rows) ->
  id_suspicious cfg rows c = false.
Proof.
  unfold id_suspicious. intros [H|[H1 H2]].
  - rewrite H. apply andb_false_r.
  - rewrite (not_candidate cfg rows c H1 H2). reflexivity.
Qed.

Lemma clean_no_flags large ratio pen f :
  1 # 2 <= ratio ->
  flag_triggered (compute_quality_flags (default_config large ratio pen)
                    (summarize_dataset clean_df) (missing_table clean_df)) f = false.
Proof.
  intros Hr. rewrite flag_triggered_compute, clean_summary_eq.
  destruct f; try (vm_compute; reflexivity).
  unfold clean_summary, ds_columns, ds_n_rows, existsb.
  rewrite !id_suspicious_false; try reflexivity.
  - right. split; [vm_compute; reflexivity|]. cbn. eval_counts. lra.
  - left. vm_compute. reflexivity.
  - left. vm_compute. reflexivity.
Qed.

(** ** The scenarios of the test suite *)

Example sample_summary_counts :
  ds_n_rows (summarize_dataset sample_df) = 4%nat /\
  ds_n_cols (summarize_dataset sample_df) = 3%nat /\
  map cs_name (ds_columns (summarize_dataset sample_df)) = ["age"; "height"; "city"].
Proof. repeat split. Qed.

Example sample_missing_age :
  map (fun r => (mr_name r, mr_missing_count r)) (missing_table sample_df) =
  [("age", 1%nat); ("height", 0%nat); ("city", 1%nat)].
Proof. reflexivity. Qed.

Example sample_city_table :
  map (fun e => (ce_value e, ce_count e)) (category_table 2 [txt "A"; txt "B"; txt "A"; None]) =
  [(VText "A", 2%nat); (VText "B", 1%nat)].
Proof. reflexivity. Qed.

Example heuristics_evidence :
  let qf := compute_quality_flags sample_config (summarize_dataset heuristics_df)
              (missing_table heuristics_df) in
  constant_columns qf = ["country"; "category"; "revenue"] /\
  map idi_name (id_duplicates_info qf) = ["user_id"] /\
  Forall (fun i => 0 < idi_duplicate_rate i) (id_duplicates_info qf) /\
  map mz_name (many_zero_columns qf) = ["revenue"] /\
  Forall (fun z => mz_zero_share z == 1) (many_zero_columns qf) /\
  too_few_rows qf = true /\
  quality_score qf < 1.
Proof.
  cbv zeta. rewrite heuristics_summary_eq. vm_compute.
  repeat split; try (repeat constructor; fail); discriminate.
Qed.

(** ** C1: the quality score *)

(** C1.  For every configuration with positive penalties, every
    DatasetSummary and every MissingTable, the quality score lies in [0,1];
    it is 1 exactly when no flag category is triggered and below 1 as soon as
    one is; it is 1 minus one penalty per triggered category, cut off at 0.
    Under the defaults (identifier candidates from at least half of the rows
    distinct) the clean 100-row frame triggers no flag and scores above
    0.7. *)
Theorem quality_score_spec (cfg : Config) (summary : DatasetSummary)
    (missing : MissingTable) (large : nat -> Q) (ratio : Q) (pen : Flag -> Q) :
  (forall f, 0 < cfg_penalty cfg f) ->
  1 # 2 <= ratio ->
  let qf := compute_quality_flags cfg summary missing in
  let clean := compute_quality_flags (default_config large ratio pen)
                 (summarize_dataset clean_df) (missing_table clean_df) in
  0 <= quality_score qf <= 1 /\
  (quality_score qf == 1 <-> forall f, flag_triggered qf f = false) /\
  ((exists f, flag_triggered qf f = true) -> quality_score qf < 1) /\
  quality_score qf == Qmax 0 (1 - penalty_sum cfg (flag_triggered qf)) /\
  (forall f, flag_triggered clean f = false) /\
  7 # 10 < quality_score clean.
Proof.
  intros Hp Hr qf clean.
  assert (Hclean : forall f, flag_triggered clean f = false)
    by (intros f; apply clean_no_flags; exact Hr).
  unfold qf, clean. rewrite !quality_score_compute. fold qf. fold clean.
  split; [apply score_range; exact Hp|].
  split; [split|].
  - intros H1 f. destruct (flag_triggered qf f) eqn:E; [|reflexivity].
    pose proof (score_some_flag cfg _ f Hp E). lra.
  - apply score_no_flag.
  - split; [intros [f Hf]; exact (score_some_flag cfg _ f Hp Hf)|].
    split; [reflexivity|].
    split; [exact Hclean|].
    rewrite (score_no_flag _ _ Hclean). reflexivity.
Qed.

Lemma quality_score_spec_witness :
  (forall f, 0 < cfg_penalty sample_config f) /\
  1 # 2 <= 9 # 10 /\
  0 <= quality_score (compute_quality_flags sample_config
                        (summarize_dataset heuristics_df)
                        (missing_table heuristics_df)) <= 1.
Proof.
  assert (Hp : forall f, 0 < cfg_penalty sample_config f) by (intros f; reflexivity).
  assert (Hr : 1 # 2 <= 9 # 10) by (unfold Qle; simpl; lia).
  split; [exact Hp|]. split; [exact Hr|].
  exact (proj1 (quality_score_spec sample_config (summarize_dataset heuristics_df)
                  (missing_table heuristics_df) (fun _ => 50) (9 # 10) (fun _ => 1 # 10)
                  Hp Hr)).
Defined.

(** ** Arithmetic on counts *)

Lemma Qlt_bool_iff a b : Qlt_bool a b = true <-> a < b.
Proof.
  unfold Qlt_bool. destruct (Qle_bool b a) eqn:E; simpl.
  - apply Qle_bool_iff in E. split; [discriminate|lra].
  - split; [intros _|reflexivity].
    destruct (Qlt_le_dec a b) as [H|H]; [exact H|].
    apply Qle_bool_iff in H. congruence.
Qed.

Lemma Qnat_lt (a b : nat) : Qnat a < Qnat b <-> (a < b)%nat.
Proof.
  unfold Qnat. rewrite <- Zlt_Qlt. lia.
Qed.

Lemma small_threshold large rows :
  (rows <= 100)%nat -> high_card_threshold large rows == 5.
Proof.
  intros H. unfold high_card_threshold.
  destruct (Nat.leb_spec rows 100) as [_|H']; [|lia].
  apply Q.max_l.
  assert (E : inject_Z (Z.of_nat rows) <= inject_Z 100) by (rewrite <- Zle_Qle; lia).
  change (inject_Z 100) with 100 in E. lra.
Qed.

Lemma is_high_cardinality_small large ratio pen rows c :
  (rows <= 100)%nat ->
  is_high_cardinality (default_config large ratio pen) rows c = true <->
  cs_kind c = Categorical /\ (5 < cs_unique c)%nat.
Proof.
  intros H. unfold is_high_cardinality. rewrite andb_true_iff, bool_decide_eq_true, Qlt_bool_iff.
  cbn [cfg_high_card_threshold default_config].
  rewrite (small_threshold large rows H). change 5 with (Qnat 5). rewrite Qnat_lt. reflexivity.
Qed.

Lemma distinct_nil_iff l : distinct l = [] <-> l = [].
Proof. destruct l; simpl; split; congruence. Qed.

Lemma is_constant_summarize rows c :
  is_constant (summarize_column rows c) = true <->
  length (distinct (non_missing (col_cells c))) = 1%nat.
Proof.
  unfold is_constant. cbn [cs_unique cs_non_null summarize_column].
  rewrite andb_true_iff, Nat.eqb_eq, Nat.ltb_lt. split; [tauto|].
  intros H. split; [exact H|].
  destruct (non_missing (col_cells c)); simpl in *; lia.
Qed.

Lemma mixed_flags large ratio pen f :
  1 # 2 <= ratio ->
  flag_triggered (compute_quality_flags (default_config large ratio pen)
                    (summarize_dataset mixed_df) (missing_table mixed_df)) f =
  match f with ConstantColumns => true | _ => false end.
Proof.
  intros Hr. rewrite flag_triggered_compute, mixed_summary_eq.
  destruct f; try (vm_compute; reflexivity).
  unfold mixed_summary, ds_columns, ds_n_rows, existsb.
  rewrite !id_suspicious_false; try reflexivity;
    try (left; vm_compute; reflexivity);
    (right; split; [vm_compute; reflexivity|]; cbn; eval_counts; lra).
Qed.

Lemma constant_columns_iff cfg summary missing name :
  In name (constant_columns (compute_quality_flags cfg summary missing)) <->
  exists c, In c (ds_columns summary) /\ cs_name c = name /\
            cs_unique c = 1%nat /\ (0 < cs_non_null c)%nat.
Proof.
  cbn [constant_columns compute_quality_flags]. rewrite in_map_iff. split.
  - intros [c [Hn Hc]]. apply filter_In in Hc as [Hin Hc].
    unfold is_constant in Hc. apply andb_true_iff in Hc as [H1 H2].
    apply Nat.eqb_eq in H1. apply Nat.ltb_lt in H2. exists c. tauto.
  - intros [c (Hin & Hn & H1 & H2)]. exists c. split; [exact Hn|].
    apply filter_In. split; [exact Hin|]. unfold is_constant.
    apply andb_true_iff. split; [apply Nat.eqb_eq; exact H1|apply Nat.ltb_lt; exact H2].
Qed.

(** ** C5: constant columns *)

(** C5.  A column is listed in [constant_columns] exactly when its summary
    has one distinct value and at least one non-missing value; for the
    summary of a table, exactly when the column has one distinct non-missing
    value.  [has_constant_columns] holds exactly when the list is not empty.
    In the 10-row mixed frame (identifier candidates from at least half of
    the rows distinct) the list is ["status"] and no other flag category is
    triggered. *)
Theorem constant_columns_spec (cfg : Config) (summary : DatasetSummary)
    (missing : MissingTable) (t : table) (large : nat -> Q) (ratio : Q) (pen : Flag -> Q) :
  1 # 2 <= ratio ->
  let qf := compute_quality_flags cfg summary missing in
  let qt := compute_quality_flags cfg (summarize_dataset t) missing in
  let mixed := compute_quality_flags (default_config large ratio pen)
                 (summarize_dataset mixed_df) (missing_table mixed_df) in
  (forall name, In name (constant_columns qf) <->
     exists c, In c (ds_columns summary) /\ cs_name c = name /\
               cs_unique c = 1%nat /\ (0 < cs_non_null c)%nat) /\
  (forall name, In name (constant_columns qt) <->
     exists c, In c t /\ col_name c = name /\
               length (distinct (non_missing (col_cells c))) = 1%nat) /\
  (has_constant_columns qf = true <-> constant_columns qf <> []) /\
  constant_columns mixed = ["status"] /\
  (forall f, flag_triggered mixed f = true <-> f = ConstantColumns).
Proof.
  intros Hr qf qt mixed.
  split; [intros name; apply constant_columns_iff|].
  split.
  { intros name. unfold qt. rewrite constant_columns_iff.
    cbn [ds_columns summarize_dataset]. split.
    - intros [s (Hin & Hn & H1 & H2)]. apply in_map_iff in Hin as [c [<- Hc]].
      exists c. split; [exact Hc|]. split; [exact Hn|exact H1].
    - intros [c (Hc & Hn & H1)].
      exists (summarize_column (n_rows t) c).
      split; [apply in_map; exact Hc|]. split; [exact Hn|].
      pose proof (proj2 (is_constant_summarize (n_rows t) c) H1) as H.
      unfold is_constant in H. apply andb_true_iff in H as [Ha Hb].
      apply Nat.eqb_eq in Ha. apply Nat.ltb_lt in Hb. tauto. }
  split; [apply nonempty_true_iff|].
  split.
  - unfold mixed. cbn [constant_columns compute_quality_flags].
    rewrite mixed_summary_eq. vm_compute. reflexivity.
  - intros f. unfold mixed. rewrite (mixed_flags large ratio pen f Hr).
    destruct f; split; congruence.
Qed.

Lemma constant_columns_spec_witness :
  1 # 2 <= 9 # 10 /\
  constant_columns (compute_quality_flags sample_config
                      (summarize_dataset mixed_df) (missing_table mixed_df)) = ["status"].
Proof.
  assert (Hr : 1 # 2 <= 9 # 10) by (unfold Qle; simpl; lia).
  split; [exact Hr|].
  exact (proj1 (proj2 (proj2 (proj2
           (constant_columns_spec sample_config (summarize_dataset sample_df)
              (missing_table sample_df) sample_df
              (fun _ => 50) (9 # 10) (fun _ => 1 # 10) Hr))))).
Defined.

Lemma high_cardinality_columns_iff cfg summary missing h :
  In h (high_cardinality_columns (compute_quality_flags cfg summary missing)) <->
  exists c, In c (ds_columns summary) /\
            h = {| hc_name := cs_name c; hc_unique := cs_unique c |} /\
            is_high_cardinality cfg (ds_n_rows summary) c = true.
Proof.
  cbn [high_cardinality_columns compute_quality_flags]. rewrite in_map_iff. split.
  - intros [c [Hh Hc]]. apply filter_In in Hc as [Hin Hc]. exists c. auto.
  - intros [c (Hin & Hh & Hc)]. exists c. split; [auto|]. apply filter_In. auto.
Qed.

(** ** High-cardinality categorical columns: the threshold of §4.5 *)

(** Under the threshold of §4.5, which up to 100 rows is max(5, rows * 0.05)
    and so is 5, a categorical column is listed in
    [high_cardinality_columns] exactly when it has more than 5 distinct
    values, and [has_high_cardinality_categoricals] holds exactly when the
    list is not empty.  Under this threshold neither the category column of
    the clean frame (5 distinct values, 100 rows) nor the name column of the
    heuristics frame (5 distinct values, 5 rows) is listed. *)
Lemma high_cardinality_rule (large : nat -> Q) (ratio : Q) (pen : Flag -> Q)
    (summary : DatasetSummary) (missing : MissingTable) :
  (ds_n_rows summary <= 100)%nat ->
  let cfg := default_config large ratio pen in
  let rows := ds_n_rows summary in
  let qf := compute_quality_flags cfg summary missing in
  let of_frame df := compute_quality_flags cfg (summarize_dataset df) (missing_table df) in
  cfg_high_card_threshold cfg rows = Qmax 5 (Qnat rows * (5 # 100)) /\
  (forall h, In h (high_cardinality_columns qf) <->
     exists c, In c (ds_columns summary) /\
               h = {| hc_name := cs_name c; hc_unique := cs_unique c |} /\
               cs_kind c = Categorical /\
               Qmax 5 (Qnat rows * (5 # 100)) < Qnat (cs_unique c)) /\
  (forall c, Qmax 5 (Qnat rows * (5 # 100)) < Qnat (cs_unique c) <-> (5 < cs_unique c)%nat) /\
  (has_high_cardinality_categoricals qf = true <-> high_cardinality_columns qf <> []) /\
  high_cardinality_columns (of_frame clean_df) = [] /\
  high_cardinality_columns (of_frame heuristics_df) = [].
Proof.
  intros Hrows cfg rows qf of_frame.
  assert (Hthr : cfg_high_card_threshold cfg rows = Qmax 5 (Qnat rows * (5 # 100))).
  { unfold cfg, rows, default_config, cfg_high_card_threshold, high_card_threshold.
    destruct (Nat.leb_spec (ds_n_rows summary) 100); [reflexivity|lia]. }
  assert (Hfive : forall c, Qmax 5 (Qnat rows * (5 # 100)) < Qnat (cs_unique c) <->
                            (5 < cs_unique c)%nat).
  { intros c. rewrite <- Hthr. unfold cfg. cbn [cfg_high_card_threshold default_config].
    rewrite (small_threshold large rows Hrows). change 5 with (Qnat 5). apply Qnat_lt. }
  split; [exact Hthr|]. split.
  { intros h. unfold qf. rewrite high_cardinality_columns_iff. fold rows.
    split; intros [c (Hin & Hh & Hc)]; exists c; (split; [exact Hin|]); (split; [exact Hh|]).
    - unfold is_high_cardinality in Hc. apply andb_true_iff in Hc as [Hk Hu].
      apply bool_decide_eq_true in Hk. apply Qlt_bool_iff in Hu. rewrite Hthr in Hu. tauto.
    - destruct Hc as [Hk Hu]. unfold is_high_cardinality. apply andb_true_iff.
      split; [apply bool_decide_eq_true; exact Hk|]. apply Qlt_bool_iff. rewrite Hthr. exact Hu. }
  split; [exact Hfive|].
  split; [apply nonempty_true_iff|].
  split; unfold of_frame, cfg; cbn [high_cardinality_columns compute_quality_flags].
  - rewrite clean_summary_eq. vm_compute. reflexivity.
  - rewrite heuristics_summary_eq. vm_compute. reflexivity.
Qed.

(** The threshold of §4.5 and the expectation of
    [test_quality_flags_new_heuristics] do not go together: whatever decides
    the flag, if up to 100 rows it flags exactly the columns with more
    distinct values than max(5, rows * 0.05), then it flags neither 5
    distinct values in 100 rows nor 5 distinct values in 5 rows, and the
    test expects the flag on a frame of 5 rows whose text columns have 1 and
    5 distinct values. *)
Lemma threshold_excludes_five_of_five (flagged : nat -> nat -> bool) (large : nat -> Q) :
  (forall rows unique, (rows <= 100)%nat ->
     flagged rows unique = true <-> high_card_threshold large rows < Qnat unique) ->
  flagged 100%nat 5%nat = false /\ flagged 5%nat 5%nat = false.
Proof.
  intros H. split.
  - destruct (flagged 100%nat 5%nat) eqn:E; [|reflexivity].
    apply (H 100%nat 5%nat) in E; [|lia]. vm_compute in E. discriminate.
  - destruct (flagged 5%nat 5%nat) eqn:E; [|reflexivity].
    apply (H 5%nat 5%nat) in E; [|lia]. vm_compute in E. discriminate.
Qed.

(** ** Sorting by count *)

Lemma In_insert_desc e l x : In x (insert_desc e l) <-> x = e \/ In x l.
Proof.
  induction l as [|h t IH]; simpl.
  - split; intros [H|H]; auto.
  - destruct (snd h <=? snd e)%nat; simpl; [|rewrite IH]; split; intros H;
      intuition congruence.
Qed.

Lemma In_sort_desc l x : In x (sort_desc l) <-> In x l.
Proof.
  induction l as [|h t IH]; simpl; [reflexivity|].
  rewrite In_insert_desc, IH. split; intros [H|H]; auto.
Qed.

Lemma insert_desc_perm e l : Permutation (insert_desc e l) (e :: l).
Proof.
  induction l as [|h t IH]; simpl; [reflexivity|].
  destruct (snd h <=? snd e)%nat; [reflexivity|].
  rewrite IH. apply perm_swap.
Qed.

Lemma sort_desc_perm l : Permutation (sort_desc l) l.
Proof.
  induction l as [|h t IH]; simpl; [reflexivity|].
  rewrite insert_desc_perm. apply perm_skip. exact IH.
Qed.

Lemma insert_desc_sorted e l :
  StronglySorted by_count_desc l -> StronglySorted by_count_desc (insert_desc e l).
Proof.
  induction l as [|h t IH]; simpl; intros Hs.
  - constructor; constructor.
  - apply StronglySorted_inv in Hs as [Ht Hh].
    destruct (Nat.leb_spec (snd h) (snd e)) as [Hle|Hgt].
    + constructor; [constructor; assumption|].
      constructor; [exact Hle|].
      eapply Forall_impl; [|exact Hh]. unfold by_count_desc. intros x Hx. lia.
    + constructor; [apply IH; exact Ht|].
      apply Forall_forall. intros x Hx. apply In_insert_desc in Hx as [->|Hx].
      * unfold by_count_desc. lia.
      * rewrite Forall_forall in Hh. apply Hh. exact Hx.
Qed.

Lemma sort_desc_sorted l : StronglySorted by_count_desc (sort_desc l).
Proof.
  induction l as [|h t IH]; simpl; [constructor|].
  apply insert_desc_sorted. exact IH.
Qed.

(** Stability: among the entries of one count the sort changes nothing. *)
Lemma filter_insert_desc n e l :
  List.filter (fun x => (snd x =? n)%nat) (insert_desc e l) =
  List.filter (fun x => (snd x =? n)%nat) (e :: l).
Proof.
  induction l as [|h t IH]; [reflexivity|].
  cbn [insert_desc]. destruct (Nat.leb_spec (snd h) (snd e)) as [Hle|Hgt]; [reflexivity|].
  cbn [List.filter] in *. rewrite IH.
  destruct (Nat.eqb_spec (snd e) n) as [He|He];
    destruct (Nat.eqb_spec (snd h) n) as [Hh|Hh]; try reflexivity.
  lia.
Qed.

Lemma filter_sort_desc n l :
  List.filter (fun x => (snd x =? n)%nat) (sort_desc l) =
  List.filter (fun x => (snd x =? n)%nat) l.
Proof.
  induction l as [|h t IH]; [reflexivity|].
  cbn [sort_desc]. rewrite filter_insert_desc. cbn [List.filter]. rewrite IH. reflexivity.
Qed.

Lemma firstn_sorted {A : Type} (R : A -> A -> Prop) k (l : list A) :
  StronglySorted R l -> StronglySorted R (firstn k l).
Proof.
  revert l. induction k as [|k IH]; intros l Hs; [constructor|].
  destruct l as [|x l]; [constructor|]. cbn [firstn].
  apply StronglySorted_inv in Hs as [Hl Hx].
  constructor; [apply IH; exact Hl|].
  apply Forall_forall. intros y Hy. rewrite Forall_forall in Hx. apply Hx.
  revert Hy. clear. revert l. induction k as [|k IHk]; intros [|z l]; simpl; try tauto.
  intros [->|H]; [left; reflexivity|right; apply IHk; exact H].
Qed.

Lemma In_firstn {A : Type} k (l : list A) x : In x (firstn k l) -> In x l.
Proof.
  revert l. induction k as [|k IH]; intros [|z l]; simpl; try tauto.
  intros [->|H]; [left; reflexivity|right; apply IH; exact H].
Qed.

Lemma sorted_map {A B : Type} (R : A -> A -> Prop) (S : B -> B -> Prop) (f : A -> B) l :
  (forall a b, R a b -> S (f a) (f b)) ->
  StronglySorted R l -> StronglySorted S (map f l).
Proof.
  intros H. induction 1 as [|a l Hs IH Ha]; simpl; constructor; [exact IH|].
  apply Forall_forall. intros y Hy. apply in_map_iff in Hy as [b [<- Hb]].
  apply H. rewrite Forall_forall in Ha. apply Ha. exact Hb.
Qed.

(** ** Distinct values and their counts *)

Lemma In_distinct l x : In x (distinct l) <-> In x l.
Proof.
  induction l as [|y l IH]; simpl; [reflexivity|].
  rewrite filter_In, IH, negb_true_iff, bool_decide_eq_false.
  destruct (decide (x = y)) as [->|Hne]; [tauto|].
  split; intros [H|H]; try tauto; try congruence.
Qed.

Lemma NoDup_filter {A : Type} (p : A -> bool) (l : list A) :
  NoDup l -> NoDup (List.filter p l).
Proof.
  induction 1 as [|x l Hx Hl IH]; simpl; [constructor|].
  destruct (p x); [|exact IH]. constructor; [|exact IH].
  rewrite list_elem_of_In in *. rewrite filter_In. tauto.
Qed.

Lemma NoDup_distinct l : NoDup (distinct l).
Proof.
  induction l as [|y l IH]; simpl; constructor.
  - rewrite list_elem_of_In, filter_In, negb_true_iff, bool_decide_eq_false. tauto.
  - apply NoDup_filter. exact IH.
Qed.

(** First-encountered order: the values first seen in [l1] come before the
    values first seen in [l2]. *)
Lemma distinct_app l1 l2 :
  distinct (l1 ++ l2) =
  distinct l1 ++ List.filter (fun y => negb (bool_decide (y ∈ l1))) (distinct l2).
Proof.
  induction l1 as [|x l1 IH]; simpl.
  - symmetry. rewrite <- (filter_true (distinct l2)) at 2. apply filter_ext.
    intros y. first [reflexivity | rewrite bool_decide_eq_false_2; [reflexivity|apply not_elem_of_nil]].
  - f_equal. rewrite IH, filter_app. f_equal.
    rewrite filter_filter_and. apply filter_ext. intros y.
    destruct (decide (y = x)) as [->|Hne].
    + rewrite (bool_decide_eq_true_2 (x = x)) by reflexivity.
      rewrite andb_false_r. symmetry. apply negb_false_iff.
      apply bool_decide_eq_true_2. apply elem_of_cons. left. reflexivity.
    + rewrite (bool_decide_eq_false_2 (y = x)) by exact Hne.
      rewrite andb_true_r. f_equal. apply bool_decide_ext.
      rewrite elem_of_cons. intuition congruence.
Qed.

Lemma occurrences_pos v l : In v l -> (0 < occurrences v l)%nat.
Proof.
  unfold occurrences. induction l as [|y l IH]; simpl; [tauto|].
  intros [->|H].
  - rewrite bool_decide_eq_true_2 by reflexivity. simpl. lia.
  - destruct (bool_decide (y = v)); simpl; [lia|apply IH; exact H].
Qed.

Lemma occurrences_le v l : (occurrences v l <= length l)%nat.
Proof. unfold occurrences. apply filter_length_le. Qed.

Lemma In_value_counts l e :
  In e (value_counts l) <-> In (fst e) l /\ snd e = occurrences (fst e) l.
Proof.
  unfold value_counts. rewrite in_map_iff. split.
  - intros [v [<- Hv]]. simpl. split; [apply (In_distinct l v); exact Hv|reflexivity].
  - intros [H1 H2]. exists (fst e). rewrite <- H2. split; [destruct e; reflexivity|].
    apply In_distinct. exact H1.
Qed.

(** ** Order in a list *)

Lemma before_app_r {A : Type} (l k : list A) (a b : A) :
  before l a b -> before (l ++ k) a b.
Proof.
  intros (l1 & l2 & l3 & ->). exists l1, l2, (l3 ++ k).
  rewrite <- ?app_assoc. cbn [app]. rewrite <- ?app_assoc. reflexivity.
Qed.

Lemma before_split {A : Type} (l k : list A) (a b : A) :
  In a l -> In b k -> before (l ++ k) a b.
Proof.
  intros Ha Hb. apply in_split in Ha as (l1 & l2 & ->). apply in_split in Hb as (k1 & k2 & ->).
  exists l1, (l2 ++ k1), k2. rewrite <- ?app_assoc. cbn [app]. rewrite <- ?app_assoc. reflexivity.
Qed.

Lemma before_sorted {A : Type} (R : A -> A -> Prop) (l : list A) (a b : A) :
  StronglySorted R l -> before l a b -> R a b.
Proof.
  intros Hs (l1 & l2 & l3 & ->). induction l1 as [|x l1 IH].
  - cbn [app] in Hs. apply StronglySorted_inv in Hs as [_ Hall].
    rewrite Forall_forall in Hall. apply Hall.
    rewrite ?list_elem_of_In. apply in_or_app. right. left. reflexivity.
  - cbn [app] in Hs. apply StronglySorted_inv in Hs as [Hs _]. apply IH. exact Hs.
Qed.

Lemma before_map {A B : Type} (f : A -> B) (l : list A) (a b : A) :
  before l a b -> before (map f l) (f a) (f b).
Proof.
  intros (l1 & l2 & l3 & ->). exists (map f l1), (map f l2), (map f l3).
  rewrite map_app. cbn [map]. rewrite map_app. reflexivity.
Qed.

Lemma filter_split {A : Type} (p : A -> bool) (l m1 : list A) (x : A) (m2 : list A) :
  List.filter p l = m1 ++ x :: m2 ->
  exists l1 l2, l = l1 ++ x :: l2 /\ List.filter p l1 = m1 /\ List.filter p l2 = m2.
Proof.
  revert m1. induction l as [|y l IH]; intros m1 H.
  - destruct m1; discriminate.
  - cbn [List.filter] in H. destruct (p y) eqn:Ey.
    + destruct m1 as [|z m1]; cbn [app] in H; injection H as -> H.
      * exists [], l. cbn [List.filter]. repeat split; assumption.
      * destruct (IH m1 H) as (l1 & l2 & -> & H1 & H2).
        exists (z :: l1), l2. cbn [List.filter app]. rewrite Ey, H1. repeat split. exact H2.
    + destruct (IH m1 H) as (l1 & l2 & -> & H1 & H2).
      exists (y :: l1), l2. cbn [List.filter app]. rewrite Ey. repeat split; assumption.
Qed.

Lemma before_filter {A : Type} (p : A -> bool) (l : list A) (a b : A) :
  p a = true -> p b = true -> before l a b -> before (List.filter p l) a b.
Proof.
  intros Ha Hb (l1 & l2 & l3 & ->).
  exists (List.filter p l1), (List.filter p l2), (List.filter p l3).
  rewrite filter_app. cbn [List.filter]. rewrite Ha, filter_app. cbn [List.filter].
  rewrite Hb. reflexivity.
Qed.

Lemma before_filter_inv {A : Type} (p : A -> bool) (l : list A) (a b : A) :
  before (List.filter p l) a b -> before l a b.
Proof.
  intros (m1 & m2 & m3 & H).
  apply filter_split in H as (l1 & k & -> & _ & H).
  apply filter_split in H as (l2 & l3 & -> & _ & _).
  exists l1, l2, l3. reflexivity.
Qed.

(** Stability of the sort: entries of one count keep their order. *)
Lemma sort_desc_stable (l : list (value * nat)) (p q : value * nat) :
  before (sort_desc l) p q -> snd p = snd q -> before l p q.
Proof.
  intros H E.
  apply (before_filter_inv (fun x => (snd x =? snd p)%nat)).
  rewrite <- filter_sort_desc. apply before_filter.
  - apply Nat.eqb_refl.
  - rewrite E. apply Nat.eqb_refl.
  - exact H.
Qed.

Lemma first_split (l : list value) (b : value) :
  In b l -> exists l1 l2, l = l1 ++ b :: l2 /\ ~ In b l1.
Proof.
  induction l as [|x l IH]; [intros []|]. intros H.
  destruct (decide (x = b)) as [->|Hne].
  - exists [], l. split; [reflexivity|intros []].
  - destruct H as [H|H]; [contradiction|].
    destruct (IH H) as (l1 & l2 & -> & Hn). exists (x :: l1), l2.
    split; [reflexivity|]. intros [E|E]; [contradiction|exact (Hn E)].
Qed.

(** The distinct values stand in the order in which they are first seen. *)
Lemma distinct_before (l : list value) (a b : value) :
  before (distinct l) a b -> first_seen_before l a b.
Proof.
  induction l as [|x l IH]; intros (l1 & l2 & l3 & H).
  - destruct l1; discriminate.
  - cbn [distinct] in H.
    assert (Hb : In b (List.filter (fun y => negb (bool_decide (y = x))) (distinct l)) ->
                 b <> x /\ In b l).
    { intros Hin. apply filter_In in Hin as [Hin Hne].
      apply negb_true_iff, bool_decide_eq_false in Hne.
      split; [exact Hne|apply (In_distinct l b); exact Hin]. }
    destruct l1 as [|y l1]; cbn [app] in H; injection H as <- H.
    + assert (Hin : In b (List.filter (fun y => negb (bool_decide (y = x))) (distinct l)))
        by (rewrite H; apply in_or_app; right; left; reflexivity).
      destruct (Hb Hin) as [Hne Hbl].
      destruct (first_split l b Hbl) as (m1 & m2 & -> & Hn).
      exists (x :: m1), m2. split; [reflexivity|]. split; [|left; reflexivity].
      intros [E|E]; [symmetry in E; contradiction|exact (Hn E)].
    + assert (Hbef : before (List.filter (fun z => negb (bool_decide (z = x))) (distinct l)) a b)
        by (exists l1, l2, l3; exact H).
      assert (Hin : In b (List.filter (fun z => negb (bool_decide (z = x))) (distinct l)))
        by (rewrite H; apply in_or_app; right; right; apply in_or_app; right; left;
            reflexivity).
      destruct (Hb Hin) as [Hne _].
      destruct (IH (before_filter_inv _ _ _ _ Hbef)) as (m1 & m2 & -> & Hn & Ha).
      exists (x :: m1), m2. split; [reflexivity|]. split; [|right; exact Ha].
      intros [E|E]; [symmetry in E; contradiction|exact (Hn E)].
Qed.

Lemma occurrences_count_occ (v : value) (l : list value) :
  occurrences v l = count_occ value_eq_dec l v.
Proof.
  unfold occurrences. induction l as [|y l IH]; [reflexivity|].
  cbn [List.filter count_occ]. destruct (value_eq_dec y v) as [E|E].
  - rewrite bool_decide_eq_true_2 by exact E. cbn [length]. rewrite IH. reflexivity.
  - rewrite bool_decide_eq_false_2 by exact E. exact IH.
Qed.

Lemma forallb_false {A : Type} (f : A -> bool) (l : list A) :
  forallb f l = false -> exists x, In x l /\ f x = false.
Proof.
  induction l as [|x l IH]; [discriminate|]. cbn [forallb]. intros H.
  destruct (f x) eqn:E.
  - destruct (IH H) as (y & Hy & Hf). exists y. split; [right; exact Hy|exact Hf].
  - exists x. split; [left; reflexivity|exact E].
Qed.

(** ** C6: the category profiler *)

Lemma missing_split cells :
  (length (non_missing cells) + count_missing cells = length cells)%nat.
Proof.
  unfold non_missing, count_missing.
  induction cells as [|[v|] cells IH]; cbn in *; lia.
Qed.

(** Counting a value among the non-missing values is counting the cells
    that hold it. *)
Lemma count_non_missing (cells : list cell) (v : value) :
  count_occ value_eq_dec (non_missing cells) v =
  count_occ (fun a b : cell => decide (a = b)) cells (Some v).
Proof.
  unfold non_missing. induction cells as [|[w|] cells IH]; [reflexivity| |].
  - change (omap (fun c : cell => c) (Some w :: cells))
      with (w :: omap (fun c : cell => c) cells).
    cbn [count_occ].
    destruct (value_eq_dec w v) as [E|E]; destruct (decide _) as [F|F];
      rewrite IH; try reflexivity.
    + exfalso. apply F. rewrite E. reflexivity.
    + exfalso. apply E. injection F as ->. reflexivity.
  - change (omap (fun c : cell => c) (None :: cells)) with (omap (fun c : cell => c) cells).
    cbn [count_occ]. destruct (decide _) as [F|_]; [discriminate|exact IH].
Qed.

(** The columns that are not numeric: those with a value that is not a
    number, and the text columns without a value. *)
Lemma not_numeric_iff (c : column) :
  is_numeric c = false <->
  (exists v, In v (non_missing (col_cells c)) /\ is_numeric_value v = false) \/
  (non_missing (col_cells c) = [] /\ col_dtype c = Categorical).
Proof.
  unfold is_numeric, infer_kind.
  destruct (non_missing (col_cells c)) as [|v l] eqn:E.
  - rewrite bool_decide_eq_false. split.
    + intros H. right. split; [reflexivity|]. destruct (col_dtype c); [contradiction|reflexivity].
    + intros [(v & [] & _)|[_ H]]. rewrite H. discriminate.
  - destruct (forallb is_numeric_value (v :: l)) eqn:F.
    + split; [intros H; apply bool_decide_eq_false in H; contradiction|].
      intros [(x & Hx & Hf)|[H _]]; [|discriminate].
      rewrite forallb_forall in F. rewrite (F x Hx) in Hf. discriminate.
    + split; [intros _; left; apply forallb_false; exact F|].
      intros _. apply bool_decide_eq_false. discriminate.
Qed.

Lemma entry_pairs top_k cells :
  map entry_pair (category_table top_k cells) =
  firstn top_k (sort_desc (value_counts (non_missing cells))).
Proof.
  unfold category_table. rewrite map_map. unfold entry_pair. cbn [ce_value ce_count].
  rewrite <- (map_id (firstn _ _)) at 2. apply map_ext. intros [v n]. reflexivity.
Qed.

Lemma entry_values top_k cells :
  map ce_value (category_table top_k cells) =
  map fst (firstn top_k (sort_desc (value_counts (non_missing cells)))).
Proof. rewrite <- entry_pairs, map_map. reflexivity. Qed.

Lemma value_counts_values l : map fst (value_counts l) = distinct l.
Proof. unfold value_counts. rewrite map_map. cbn [fst]. apply map_id. Qed.

Lemma share_div (a b : nat) : (0 < b)%nat -> share a b == Qnat a / Qnat b.
Proof.
  intros H. unfold share. destruct (Nat.eqb_spec b 0) as [->|_]; [lia|reflexivity].
Qed.

(** The table of one column: the first [top_k] of all counted values, in
    descending order of count and, among equal counts, in the order in which
    the values are first seen. *)
Lemma category_table_spec (top_k : nat) (cells : list cell) :
  let vals := non_missing cells in
  let tbl := category_table top_k cells in
  let count v := count_occ value_eq_dec vals v in
  (forall v, In v vals <-> In (Some v) cells) /\
  (forall v, count v = count_occ (fun a b : cell => decide (a = b)) cells (Some v)) /\
  (length vals + count_missing cells = length cells)%nat /\
  (length tbl <= top_k)%nat /\
  length tbl = Nat.min top_k (length (distinct vals)) /\
  StronglySorted by_entry_count_desc tbl /\
  NoDup (map ce_value tbl) /\
  (forall e, In e tbl ->
     In (ce_value e) vals /\
     ce_count e = count (ce_value e) /\
     (0 < ce_count e)%nat /\
     ce_share e == Qnat (ce_count e) / Qnat (length vals)) /\
  (forall e1 e2, before tbl e1 e2 -> ce_count e1 = ce_count e2 ->
     first_seen_before vals (ce_value e1) (ce_value e2)) /\
  (forall v, In v vals -> ~ In v (map ce_value tbl) ->
     length tbl = top_k /\
     forall e, In e tbl ->
       (count v < ce_count e)%nat \/
       (count v = ce_count e /\ first_seen_before vals (ce_value e) v)) /\
  (vals = [] -> tbl = []).
Proof.
  intros vals tbl count.
  split.
  { intros v. unfold vals, non_missing. rewrite <- !list_elem_of_In, list_elem_of_omap.
    split; [intros (c & Hc & ->); exact Hc|intros H; exists (Some v); split; [exact H|reflexivity]]. }
  split; [intros v; apply count_non_missing|].
  split; [apply missing_split|].
  set (sorted := sort_desc (value_counts vals)).
  assert (Hpairs : map entry_pair tbl = firstn top_k sorted) by apply entry_pairs.
  assert (Hsplit : sorted = firstn top_k sorted ++ skipn top_k sorted)
    by (symmetry; apply firstn_skipn).
  assert (Hlen : length tbl = Nat.min top_k (length (distinct vals))).
  { unfold tbl, category_table. rewrite length_map, length_firstn.
    rewrite (Permutation_length (sort_desc_perm _)). unfold value_counts.
    rewrite length_map. reflexivity. }
  assert (Hin : forall e, In e tbl -> In (entry_pair e) (value_counts vals) /\
                                      ce_share e = share (ce_count e) (length vals)).
  { intros e He. unfold tbl, category_table in He. apply in_map_iff in He as [p [<- Hp]].
    apply In_firstn in Hp. apply (proj1 (In_sort_desc _ _)) in Hp. destruct p as [v n].
    split; [exact Hp|reflexivity]. }
  assert (Hkept : forall e, In e tbl -> In (entry_pair e) (firstn top_k sorted))
    by (intros e He; rewrite <- Hpairs; apply in_map; exact He).
  assert (Hstable : forall p q, before sorted p q -> snd p = snd q ->
                                first_seen_before vals (fst p) (fst q)).
  { intros p q Hb E. apply distinct_before. rewrite <- value_counts_values.
    apply before_map. apply sort_desc_stable; assumption. }
  split; [rewrite Hlen; lia|]. split; [exact Hlen|].
  split.
  { unfold tbl, category_table. apply (sorted_map by_count_desc).
    - intros a b H. exact H.
    - apply firstn_sorted, sort_desc_sorted. }
  split.
  { unfold tbl. rewrite entry_values. fold vals. fold sorted.
    apply (sublist_NoDup _ (map fst sorted)).
    - unfold sorted. rewrite (Permutation_map fst (sort_desc_perm _)).
      rewrite value_counts_values. apply NoDup_distinct.
    - rewrite <- firstn_map. apply sublist_take. }
  split.
  { intros e He. destruct (Hin e He) as [Hp Hs].
    apply (proj1 (In_value_counts _ _)) in Hp. destruct Hp as [Hv Hc].
    cbn [entry_pair fst snd] in Hv, Hc.
    pose proof (occurrences_pos _ _ Hv) as Hpos.
    assert (Hl : (0 < length vals)%nat) by (destruct vals; [destruct Hv|simpl; lia]).
    split; [exact Hv|]. split; [unfold count; rewrite <- occurrences_count_occ; exact Hc|].
    split; [lia|]. rewrite Hs. apply share_div. exact Hl. }
  split.
  { intros e1 e2 Hb E.
    apply (Hstable (entry_pair e1) (entry_pair e2)); [|exact E].
    rewrite Hsplit. apply before_app_r. rewrite <- Hpairs. apply before_map. exact Hb. }
  split.
  { intros v Hv Hout.
    assert (Hp : In (v, occurrences v vals) sorted)
      by (apply In_sort_desc, In_value_counts; split; [exact Hv|reflexivity]).
    rewrite Hsplit in Hp. apply in_app_or in Hp as [Hp|Hp].
    { exfalso. apply Hout. unfold tbl. rewrite entry_values. fold vals. fold sorted.
      apply (in_map fst) in Hp. exact Hp. }
    split.
    - rewrite <- (length_map entry_pair), Hpairs, length_firstn.
      assert (Hk : (0 < length (skipn top_k sorted))%nat)
        by (destruct (skipn top_k sorted); [destruct Hp|cbn; lia]).
      rewrite length_skipn in Hk. lia.
    - intros e He.
      assert (Hb : before sorted (entry_pair e) (v, occurrences v vals))
        by (rewrite Hsplit; apply before_split; [apply Hkept; exact He|exact Hp]).
      pose proof (before_sorted by_count_desc sorted _ _ (sort_desc_sorted _) Hb) as Hle.
      unfold by_count_desc in Hle. cbn [snd entry_pair] in Hle.
      unfold count. rewrite <- occurrences_count_occ.
      destruct (Nat.eq_dec (occurrences v vals) (ce_count e)) as [E|E]; [right|left; lia].
      split; [exact E|]. apply (Hstable _ _ Hb). cbn [snd entry_pair]. symmetry. exact E. }
  intros Hv. unfold tbl, category_table. fold vals. rewrite Hv. destruct top_k; reflexivity.
Qed.

(** C6.  [top_categories] profiles the first [max_columns] non-numeric
    columns in table order: the columns with a value that is not a number
    and the text columns without a value.  The table of each of them has at
    most [top_k] entries, sorted by count descending, entries of equal count
    in the order in which their values are first seen.  It lists distinct
    non-missing values of the column, each with the number of cells that
    hold it and with the share count / non-missing count, the missing cells
    counting for neither.  The entries are the most frequent values: a value that is left
    out is left out of a full table, and every entry has a larger count, or
    the same count and an earlier first occurrence.  The table of a column
    without non-missing values is empty. *)
Theorem top_categories_spec (t : table) (max_columns top_k : nat) :
  let cats := List.filter (fun c => negb (is_numeric c)) t in
  let result := top_categories t max_columns top_k in
  (forall c, In c cats <->
     In c t /\
     ((exists v, In v (non_missing (col_cells c)) /\ is_numeric_value v = false) \/
      (non_missing (col_cells c) = [] /\ col_dtype c = Categorical))) /\
  map fst result = map col_name (firstn max_columns cats) /\
  (length result <= max_columns)%nat /\
  Forall2 (fun c r =>
      let vals := non_missing (col_cells c) in
      let tbl := snd r in
      let count v := count_occ value_eq_dec vals v in
      fst r = col_name c /\
      (forall v, In v vals <-> In (Some v) (col_cells c)) /\
      (forall v, count v =
                 count_occ (fun a b : cell => decide (a = b)) (col_cells c) (Some v)) /\
      (length vals + count_missing (col_cells c) = length (col_cells c))%nat /\
      (length tbl <= top_k)%nat /\
      length tbl = Nat.min top_k (length (distinct vals)) /\
      StronglySorted by_entry_count_desc tbl /\
      NoDup (map ce_value tbl) /\
      (forall e, In e tbl ->
         In (ce_value e) vals /\
         ce_count e = count (ce_value e) /\
         (0 < ce_count e)%nat /\
         ce_share e == Qnat (ce_count e) / Qnat (length vals)) /\
      (forall e1 e2, before tbl e1 e2 -> ce_count e1 = ce_count e2 ->
         first_seen_before vals (ce_value e1) (ce_value e2)) /\
      (forall v, In v vals -> ~ In v (map ce_value tbl) ->
         length tbl = top_k /\
         forall e, In e tbl ->
           (count v < ce_count e)%nat \/
           (count v = ce_count e /\ first_seen_before vals (ce_value e) v)) /\
      (vals = [] -> tbl = []))
    (firstn max_columns cats) result.
Proof.
  intros cats result. unfold result, top_categories. fold cats.
  split.
  { intros c. unfold cats. rewrite filter_In, negb_true_iff, not_numeric_iff. reflexivity. }
  split; [rewrite map_map; reflexivity|].
  split; [rewrite length_map, length_firstn; lia|].
  induction (firstn max_columns cats) as [|c l IH]; simpl; constructor; [|exact IH].
  split; [reflexivity|]. exact (category_table_spec top_k (col_cells c)).
Qed.

(** The most frequent letter comes last in its column and is listed first;
    the column without a value is profiled with an empty table. *)
Lemma top_categories_spec_witness :
  map fst (top_categories letters_df 5 2) = ["letter"; "blank"] /\
  top_categories letters_df 5 2 =
    [ ("letter", [ {| ce_value := VText "C"; ce_count := 3; ce_share := 3 # 5 |};
                   {| ce_value := VText "A"; ce_count := 1; ce_share := 1 # 5 |} ]);
      ("blank", []) ].
Proof.
  split.
  - exact (proj1 (proj2 (top_categories_spec letters_df 5 2))).
  - vm_compute. reflexivity.
Defined.

(** ** Pearson's coefficient *)

Lemma Qmult_comm_eq (x y : Q) : (x * y)%Q = (y * x)%Q.
Proof. unfold Qmult. f_equal; [apply Z.mul_comm|apply Pos.mul_comm]. Qed.

Lemma dot_comm a b : dot a b = dot b a.
Proof.
  revert b. induction a as [|x a IH]; intros [|y b]; cbn [dot]; try reflexivity.
  rewrite IH, (Qmult_comm_eq x y). reflexivity.
Qed.

Lemma dot_self_nonneg a : 0 <= dot a a.
Proof.
  induction a as [|x a IH]; cbn [dot]; [lra|Lqa.nra].
Qed.

(** Cauchy-Schwarz for the sums of products. *)
Lemma Qsquare_nonneg (z : Q) : 0 <= z * z.
Proof. Lqa.nra. Qed.

Lemma Qpos_factor (p e : Q) : 0 < p -> 0 <= p * e -> 0 <= e.
Proof. intros Hp He. Lqa.nra. Qed.

Lemma Qsquare_zero (z : Q) : z * z <= 0 -> z == 0.
Proof. intros H. Lqa.nra. Qed.

(** The step of the Cauchy-Schwarz induction. *)
Lemma cauchy_schwarz_step (x y sxy sxx syy : Q) :
  0 <= sxx -> 0 <= syy -> sxy * sxy <= sxx * syy ->
  (x * y + sxy) * (x * y + sxy) <= (x * x + sxx) * (y * y + syy).
Proof.
  intros HA HB IH.
  assert (E : 0 <= x * x * syy + y * y * sxx - 2 * (x * y * sxy)).
  { destruct (Qlt_le_dec 0 syy) as [Hpos|H0].
    - apply (Qpos_factor syy); [exact Hpos|].
      pose proof (Qsquare_nonneg (x * syy - y * sxy)) as H1.
      assert (H2 : 0 <= y * y * (sxx * syy - sxy * sxy))
        by (apply Qmult_le_0_compat; [apply Qsquare_nonneg|lra]).
      assert (Hid : syy * (x * x * syy + y * y * sxx - 2 * (x * y * sxy)) ==
                    (x * syy - y * sxy) * (x * syy - y * sxy) +
                    y * y * (sxx * syy - sxy * sxy)) by ring.
      rewrite Hid. lra.
    - assert (Hyy : syy == 0) by lra.
      assert (Hxy : sxy == 0).
      { apply Qsquare_zero. rewrite Hyy in IH. lra. }
      rewrite Hyy, Hxy.
      assert (H2 : 0 <= y * y * sxx)
        by (apply Qmult_le_0_compat; [apply Qsquare_nonneg|exact HA]).
      lra. }
  assert (Hid : (x * x + sxx) * (y * y + syy) - (x * y + sxy) * (x * y + sxy) ==
                (x * x * syy + y * y * sxx - 2 * (x * y * sxy)) +
                (sxx * syy - sxy * sxy)) by ring.
  lra.
Qed.

(** Cauchy-Schwarz for the sums of products. *)
Lemma dot_cauchy_schwarz a b : dot a b * dot a b <= dot a a * dot b b.
Proof.
  revert b. induction a as [|x a IH]; intros b.
  - cbn [dot]. lra.
  - destruct b as [|y b].
    + cbn [dot]. pose proof (dot_self_nonneg (x :: a)) as H. cbn [dot] in H. lra.
    + cbn [dot]. apply cauchy_schwarz_step; [apply dot_self_nonneg..|apply IH].
Qed.

Lemma moments_cauchy_schwarz ps :
  let m := pearson_moments ps in
  0 <= m_xx m /\ 0 <= m_yy m /\ m_xy m * m_xy m <= m_xx m * m_yy m.
Proof.
  cbn. split; [apply dot_self_nonneg|]. split; [apply dot_self_nonneg|].
  apply dot_cauchy_schwarz.
Qed.

Lemma Qeq_bool_false (a b : Q) : Qeq_bool a b = false <-> ~ a == b.
Proof.
  split.
  - intros H E. apply Qeq_bool_iff in E. congruence.
  - intros H. destruct (Qeq_bool a b) eqn:E; [|reflexivity].
    apply Qeq_bool_iff in E. contradiction.
Qed.

(** A ratio whose square is at most 1. *)
Lemma ratio_bounds (c d : R) :
  (0 < d)%R -> (c * c <= d)%R -> (-1 <= c / sqrt d <= 1)%R.
Proof.
  intros Hd Hc.
  pose proof (sqrt_lt_R0 d Hd) as Hs.
  pose proof (sqrt_sqrt d (Rlt_le _ _ Hd)) as Hsq.
  assert (Hb : (- sqrt d <= c <= sqrt d)%R) by (split; Lra.nra).
  unfold Rdiv. pose proof (Rinv_0_lt_compat _ Hs) as Hi.
  assert (H1 : (sqrt d * / sqrt d = 1)%R) by (apply Rinv_r; Lra.lra).
  split.
  - replace (-1)%R with ((- sqrt d) * / sqrt d)%R by (rewrite Ropp_mult_distr_l_reverse, H1; reflexivity).
    apply Rmult_le_compat_r; [Lra.lra|tauto].
  - rewrite <- H1. apply Rmult_le_compat_r; [Lra.lra|tauto].
Qed.

Lemma Q2R_zero (q : Q) : q == 0 -> Q2R q = 0%R.
Proof. intros H. rewrite (Qeq_eqR _ _ H). apply RMicromega.Q2R_0. Qed.

(** Where the denominator of Pearson's formula vanishes, so does the
    co-moment, and the quotient is 0. *)
Lemma pearson_degenerate ps :
  m_xx (pearson_moments ps) * m_yy (pearson_moments ps) == 0 -> pearson ps = 0%R.
Proof.
  intros H. destruct (moments_cauchy_schwarz ps) as (_ & _ & Hcs).
  assert (E : m_xy (pearson_moments ps) == 0)
    by (apply Qsquare_zero; rewrite H in Hcs; exact Hcs).
  unfold pearson. cbv zeta. rewrite (Q2R_zero _ E). unfold Rdiv. apply Rmult_0_l.
Qed.

Lemma pearson_range ps : (-1 <= pearson ps <= 1)%R.
Proof.
  destruct (moments_cauchy_schwarz ps) as (Hx & Hy & Hcs).
  destruct (Qeq_bool (m_xx (pearson_moments ps) * m_yy (pearson_moments ps)) 0) eqn:E.
  - apply Qeq_bool_iff in E. rewrite (pearson_degenerate ps E). Lra.lra.
  - apply Qeq_bool_false in E.
    assert (Hpos : 0 < m_xx (pearson_moments ps) * m_yy (pearson_moments ps)).
    { assert (0 <= m_xx (pearson_moments ps) * m_yy (pearson_moments ps))
        by (apply Qmult_le_0_compat; assumption).
      apply Qle_lteq in H as [H|H]; [exact H|]. symmetry in H. contradiction. }
    unfold pearson. cbv zeta. apply ratio_bounds.
    + apply Qlt_Rlt in Hpos. rewrite RMicromega.Q2R_0 in Hpos. exact Hpos.
    + apply Qle_Rle in Hcs. rewrite Q2R_mult in Hcs. exact Hcs.
Qed.

(** Pearson's formula on a series and itself: 1 when the series varies. *)
Lemma pearson_self (xs : list Q) :
  let v := dot (centered xs) (centered xs) in
  pearson (map (fun x => (x, x)) xs) = if Qeq_bool v 0 then 0%R else 1%R.
Proof.
  cbv zeta. set (v := dot (centered xs) (centered xs)).
  assert (Hm : pearson_moments (map (fun x => (x, x)) xs) =
               {| m_xy := v; m_xx := v; m_yy := v |}).
  { unfold pearson_moments. rewrite !map_map. cbn [fst snd]. rewrite map_id. reflexivity. }
  pose proof (dot_self_nonneg (centered xs)) as Hv. fold v in Hv.
  destruct (Qeq_bool v 0) eqn:E.
  - apply pearson_degenerate. rewrite Hm. cbn [m_xx m_yy].
    apply Qeq_bool_iff in E. rewrite E. reflexivity.
  - apply Qeq_bool_false in E.
    assert (Hpos : 0 < v) by (apply Qle_lteq in Hv as [H|H]; [exact H|symmetry in H; contradiction]).
    unfold pearson. cbv zeta. rewrite Hm. cbn [m_xy m_xx m_yy].
    rewrite Q2R_mult. apply Qlt_Rlt in Hpos. rewrite RMicromega.Q2R_0 in Hpos.
    rewrite sqrt_square by Lra.lra. apply Rinv_r. Lra.lra.
Qed.

Lemma pearson_swap ps : pearson (map swap_pair ps) = pearson ps.
Proof.
  unfold pearson, pearson_moments. cbn [m_xx m_yy m_xy].
  rewrite !map_map. cbn [swap_pair fst snd].
  change (map (fun x : Q * Q => snd x) ps) with (map snd ps).
  change (map (fun x : Q * Q => fst x) ps) with (map fst ps).
  rewrite (dot_comm (centered (map snd ps)) (centered (map fst ps))).
  rewrite (Qmult_comm_eq (dot (centered (map snd ps)) (centered (map snd ps)))).
  reflexivity.
Qed.

Lemma complete_pairs_swap xs ys :
  complete_pairs ys xs = map swap_pair (complete_pairs xs ys).
Proof.
  revert ys. induction xs as [|x xs IH]; intros [|y ys]; cbn [complete_pairs map];
    try reflexivity.
  destruct x as [[qx|sx|bx]|], y as [[qy|sy|by_]|]; cbn [map]; rewrite ?IH; reflexivity.
Qed.

Lemma complete_pairs_self xs :
  complete_pairs xs xs = map (fun x => (x, x)) (map this (numbers (non_missing xs))).
Proof.
  induction xs as [|x xs IH]; [reflexivity|].
  destruct x as [[qx|sx|bx]|]; cbn; rewrite IH; reflexivity.
Qed.

Lemma pearson_symmetric a b :
  pearson (complete_pairs b a) = pearson (complete_pairs a b).
Proof. rewrite complete_pairs_swap. apply pearson_swap. Qed.

(** ** When the second moment vanishes *)

Lemma dot_self_zero a : dot a a == 0 <-> Forall (fun x => x == 0) a.
Proof.
  induction a as [|x a IH]; cbn [dot].
  - split; [constructor|reflexivity].
  - pose proof (Qsquare_nonneg x) as Hx. pose proof (dot_self_nonneg a) as Ha. split.
    + intros H. constructor.
      * apply Qsquare_zero. lra.
      * apply IH. lra.
    + intros H. apply Forall_cons_1 in H as [H1 H2]. apply IH in H2.
      rewrite H1, H2. reflexivity.
Qed.

Lemma Qsum_constant (c : Q) xs :
  (forall x, In x xs -> x == c) -> Qsum xs == Qnat (length xs) * c.
Proof.
  induction xs as [|x xs IH]; intros H.
  - unfold Qsum, Qnat. cbn [fold_right length]. change (inject_Z (Z.of_nat 0)) with 0. lra.
  - cbn [Qsum fold_right length]. fold (Qsum xs).
    rewrite (H x (or_introl eq_refl)), IH by (intros y Hy; apply H; right; exact Hy).
    unfold Qnat. rewrite Nat2Z.inj_succ, <- Z.add_1_r, inject_Z_plus. ring.
Qed.

Lemma Qmean_constant (c : Q) xs :
  xs <> [] -> (forall x, In x xs -> x == c) -> Qmean xs == c.
Proof.
  intros Hne H. unfold Qmean. rewrite (Qsum_constant c xs H). fold (Qnat (length xs)).
  assert (Hn : ~ Qnat (length xs) == 0).
  { unfold Qnat. destruct xs as [|x xs]; [contradiction|].
    cbn [length]. rewrite Nat2Z.inj_succ. intros E.
    unfold Qeq, inject_Z in E. cbn [Qnum Qden] in E. lia. }
  field. exact Hn.
Qed.

Lemma variance_zero_iff xs :
  dot (centered xs) (centered xs) == 0 <->
  (forall x y, In x xs -> In y xs -> x == y).
Proof.
  rewrite dot_self_zero. unfold centered. rewrite Forall_map, Forall_forall. split.
  - intros H x y Hx Hy. pose proof (H x Hx) as H1. pose proof (H y Hy) as H2.
    cbn beta in H1, H2. lra.
  - intros H x Hx. cbn beta.
    assert (Hne : xs <> []) by (destruct xs; [destruct Hx|discriminate]).
    rewrite (Qmean_constant x xs Hne) by (intros y Hy; apply H; assumption). lra.
Qed.

Lemma distinct_at_most_one l :
  (length (distinct l) <= 1)%nat <-> (forall x y, In x l -> In y l -> x = y).
Proof.
  destruct l as [|a l]; [cbn; split; [intros _ x y []|lia]|].
  cbn [distinct length]. split.
  - intros H.
    assert (E : List.filter (fun y => negb (bool_decide (y = a))) (distinct l) = [])
      by (destruct (List.filter _ _); [reflexivity|cbn in H; lia]).
    assert (Ha : forall x, In x (a :: l) -> x = a).
    { intros x [<-|Hx]; [reflexivity|].
      destruct (decide (x = a)) as [Hxa|Hne]; [exact Hxa|exfalso].
      assert (Hin : In x (List.filter (fun y => negb (bool_decide (y = a))) (distinct l))).
      { apply filter_In. split; [apply In_distinct; exact Hx|].
        apply negb_true_iff, bool_decide_eq_false_2. exact Hne. }
      rewrite E in Hin. exact Hin. }
    intros x y Hx Hy. rewrite (Ha x Hx), (Ha y Hy). reflexivity.
  - intros H.
    assert (E : List.filter (fun y => negb (bool_decide (y = a))) (distinct l) = []).
    { destruct (List.filter _ _) as [|z k] eqn:Ez; [reflexivity|exfalso].
      assert (Hz : In z (z :: k)) by (left; reflexivity).
      rewrite <- Ez in Hz. apply filter_In in Hz as [Hz1 Hz2].
      apply negb_true_iff, bool_decide_eq_false in Hz2. apply Hz2.
      apply H; [right; apply (In_distinct l z); exact Hz1|left; reflexivity]. }
    rewrite E. cbn. lia.
Qed.

Lemma all_numeric (l : list value) :
  forallb is_numeric_value l = true -> l = map VNum (numbers l).
Proof.
  induction l as [|v l IH]; [reflexivity|]. cbn [forallb]. intros E.
  apply andb_true_iff in E as [Hv Hl]. destruct v; try discriminate.
  cbn. f_equal. apply IH. exact Hl.
Qed.

Lemma numeric_values c :
  infer_kind c = Numeric ->
  non_missing (col_cells c) = map VNum (numbers (non_missing (col_cells c))).
Proof.
  unfold infer_kind. destruct (non_missing (col_cells c)) as [|v l] eqn:E; [reflexivity|].
  destruct (forallb is_numeric_value (v :: l)) eqn:F; [intros _|discriminate].
  apply all_numeric. exact F.
Qed.

(** A numeric column has a non-zero second moment exactly when it has at
    least two distinct non-missing values. *)
Lemma numeric_variation c :
  is_numeric c = true ->
  let xs := map this (numbers (non_missing (col_cells c))) in
  Qeq_bool (dot (centered xs) (centered xs)) 0 =
  negb (2 <=? length (distinct (non_missing (col_cells c))))%nat.
Proof.
  intros Hnum xs. apply bool_decide_eq_true in Hnum.
  pose proof (numeric_values c Hnum) as Hvals.
  set (qs := numbers (non_missing (col_cells c))) in *.
  assert (Hiff : dot (centered xs) (centered xs) == 0 <->
                 (length (distinct (non_missing (col_cells c))) <= 1)%nat).
  { rewrite variance_zero_iff, distinct_at_most_one, Hvals. unfold xs. split.
    - intros H x y Hx Hy. apply in_map_iff in Hx as [p [<- Hp]].
      apply in_map_iff in Hy as [q [<- Hq]]. f_equal. apply Qc_is_canon.
      apply H; apply in_map; assumption.
    - intros H x y Hx Hy. apply in_map_iff in Hx as [p [<- Hp]].
      apply in_map_iff in Hy as [q [<- Hq]].
      assert (E : VNum p = VNum q) by (apply H; apply in_map; assumption).
      injection E as ->. reflexivity. }
  destruct (Nat.leb_spec 2 (length (distinct (non_missing (col_cells c))))) as [H2|H2]; cbn.
  - apply Qeq_bool_false. intros E. apply Hiff in E. lia.
  - apply Qeq_bool_iff, Hiff. lia.
Qed.

(** The pairwise-complete observations of two columns are the rows where
    both hold a number. *)
Lemma complete_pairs_rows (xs ys : list cell) (p : Q * Q) :
  In p (complete_pairs xs ys) <->
  exists k a b, xs !! k = Some (Some (VNum a)) /\ ys !! k = Some (Some (VNum b)) /\
                p = (this a, this b).
Proof.
  revert ys. induction xs as [|x xs IH]; intros ys.
  - cbn [complete_pairs In]. split; [tauto|].
    intros (k & a & b & H & _). rewrite lookup_nil in H. discriminate.
  - destruct ys as [|y ys].
    + cbn [complete_pairs In]. split; [tauto|].
      intros (k & a & b & _ & H & _). rewrite lookup_nil in H. discriminate.
    + assert (Hskip : In p (complete_pairs xs ys) <->
                      exists k a b, (x :: xs) !! Datatypes.S k = Some (Some (VNum a)) /\
                                    (y :: ys) !! Datatypes.S k = Some (Some (VNum b)) /\
                                    p = (this a, this b)) by apply IH.
      assert (Hhere : forall k a b,
                 (x :: xs) !! k = Some (Some (VNum a)) ->
                 (y :: ys) !! k = Some (Some (VNum b)) ->
                 (k = 0%nat /\ x = Some (VNum a) /\ y = Some (VNum b)) \/
                 exists k', k = Datatypes.S k').
      { intros [|k'] a b H1 H2; [left|right; eexists; reflexivity].
        cbn in H1, H2. injection H1 as ->. injection H2 as ->. tauto. }
      cbn [complete_pairs].
      destruct x as [[a|sa|ba]|], y as [[b|sb|bb]|]; cbn [In];
        try (rewrite Hskip; split;
             [intros (k & a' & b' & H); exists (Datatypes.S k), a', b'; exact H|
              intros (k & a' & b' & H1 & H2 & Hp);
              destruct (Hhere k a' b' H1 H2) as [(_ & E1 & E2)|[k' ->]];
              [discriminate|exists k', a', b'; tauto]]).
      rewrite Hskip. split.
      * intros [<-|(k & a' & b' & H)].
        -- exists 0%nat, a, b. repeat split.
        -- exists (Datatypes.S k), a', b'. exact H.
      * intros (k & a' & b' & H1 & H2 & Hp).
        destruct (Hhere k a' b' H1 H2) as [(_ & E1 & E2)|[k' ->]].
        -- left. injection E1 as <-. injection E2 as <-. symmetry. exact Hp.
        -- right. exists k', a', b'. tauto.
Qed.

(** ** C3: the correlation matrix *)

Lemma lookup_map {A B : Type} (f : A -> B) (l : list A) (i : nat) :
  map f l !! i = option_map f (l !! i).
Proof.
  revert i. induction l as [|x l IH]; intros [|i]; cbn; try reflexivity. apply IH.
Qed.

Lemma lookup_indexed {A : Type} (l : list A) (i : nat) :
  indexed l !! i = option_map (pair i) (l !! i).
Proof. unfold indexed. rewrite list_lookup_imap. reflexivity. Qed.

Lemma length_indexed {A : Type} (l : list A) : length (indexed l) = length l.
Proof. apply length_imap. Qed.

Lemma correlation_matrix_small t :
  (length (List.filter is_numeric t) < 2)%nat ->
  correlation_matrix t = {| cm_names := []; cm_rows := [] |}.
Proof.
  intros H. unfold correlation_matrix.
  destruct (Nat.ltb_spec (length (List.filter is_numeric t)) 2); [reflexivity|lia].
Qed.

Lemma correlation_matrix_large t :
  (2 <= length (List.filter is_numeric t))%nat ->
  correlation_matrix t =
  let nums := List.filter is_numeric t in
  {| cm_names := map col_name nums;
     cm_rows := map (fun a => map (correlation_entry a) (indexed nums)) (indexed nums) |}.
Proof.
  intros H. unfold correlation_matrix.
  destruct (Nat.ltb_spec (length (List.filter is_numeric t)) 2); [lia|reflexivity].
Qed.

Lemma cm_entry_small t i j :
  (length (List.filter is_numeric t) < 2)%nat -> cm_entry (correlation_matrix t) i j = None.
Proof.
  intros H. rewrite (correlation_matrix_small t H). unfold cm_entry. cbn.
  destruct i; reflexivity.
Qed.

Lemma cm_entry_large t i j :
  (2 <= length (List.filter is_numeric t))%nat ->
  cm_entry (correlation_matrix t) i j =
  match List.filter is_numeric t !! i, List.filter is_numeric t !! j with
  | Some a, Some b =>
      Some (if (i =? j)%nat then 1%R
            else pearson (complete_pairs (col_cells a) (col_cells b)))
  | _, _ => None
  end.
Proof.
  intros H. rewrite (correlation_matrix_large t H). unfold cm_entry. cbn [cm_rows].
  rewrite lookup_map, lookup_indexed.
  destruct (List.filter is_numeric t !! i) as [a|]; [|reflexivity].
  cbn [option_map]. rewrite lookup_map, lookup_indexed.
  destruct (List.filter is_numeric t !! j) as [b|]; reflexivity.
Qed.

Lemma filter_lookup_true {A : Type} (p : A -> bool) (l : list A) i x :
  List.filter p l !! i = Some x -> p x = true.
Proof.
  intros H. apply list_elem_of_lookup_2 in H. apply list_elem_of_In in H.
  apply filter_In in H. tauto.
Qed.



(** ** The operations that can raise *)

(** Without their guards the operations raise: a share over no rows, the
    maximum of no missing share, the mean of no values. *)
Lemma unguarded_operations_raise :
  Checked.divide (Qnat 0) (Qnat 0) = inl Checked.ZeroDivisionError /\
  Checked.reduce1 Qmax (map mr_missing_share []) = inl Checked.ValueError /\
  Checked.mean [] = inl Checked.ValueError.
Proof. repeat split. Qed.

Lemma traverse_map {A B : Type} (f : A -> Checked.result B) (g : A -> B) (l : list A) :
  (forall x, In x l -> f x = inr (g x)) -> Checked.traverse f l = inr (map g l).
Proof.
  induction l as [|x l IH]; intros H; [reflexivity|].
  cbn [Checked.traverse map]. rewrite (H x (or_introl eq_refl)).
  rewrite IH by (intros y Hy; apply H; right; exact Hy). reflexivity.
Qed.

Lemma Qnat_nonzero (n : nat) : n <> 0%nat -> Qeq_bool (Qnat n) 0 = false.
Proof.
  intros H. apply Qeq_bool_false. unfold Qnat, Qeq, inject_Z. cbn [Qnum Qden]. lia.
Qed.

Lemma divide_counts (a b : nat) :
  b <> 0%nat -> Checked.divide (Qnat a) (Qnat b) = inr (Qnat a / Qnat b).
Proof. intros H. unfold Checked.divide. rewrite (Qnat_nonzero b H). reflexivity. Qed.

Lemma share_quotient (a b : nat) : b <> 0%nat -> share a b = Qnat a / Qnat b.
Proof.
  intros H. unfold share. destruct (Nat.eqb_spec b 0) as [E|_]; [contradiction|reflexivity].
Qed.

Lemma checked_share (a b : nat) : Checked.share a b = inr (share a b).
Proof.
  unfold Checked.share, share. destruct (Nat.eqb_spec b 0) as [_|H]; [reflexivity|].
  apply divide_counts. exact H.
Qed.

Lemma checked_extremum (f : Qc -> Qc -> Qc) (l : list Qc) :
  Checked.stat (Checked.reduce1 f) l = inr (fold1 f l).
Proof. destruct l; reflexivity. Qed.

Lemma checked_mean (l : list Qc) : Checked.stat Checked.mean l = inr (mean l).
Proof.
  destruct l as [|x l]; [reflexivity|].
  unfold Checked.stat, Checked.mean, Checked.divide_c, mean.
  rewrite bool_decide_eq_false_2; [reflexivity|].
  intros E. apply Q2Qc_eq_iff in E. unfold Qeq, inject_Z in E. cbn [Qnum Qden length] in E. lia.
Qed.

Lemma checked_summarize_column (rows : nat) (c : column) :
  Checked.summarize_column rows c = inr (summarize_column rows c).
Proof.
  unfold Checked.summarize_column.
  rewrite checked_share, !checked_extremum, checked_mean. reflexivity.
Qed.

Lemma checked_centered (l : list Q) :
  l <> [] -> Checked.centered l = inr (centered l).
Proof.
  intros H. unfold Checked.centered, Checked.Qmean, Checked.divide.
  rewrite Qnat_nonzero by (destruct l; [contradiction|discriminate]). reflexivity.
Qed.

Lemma checked_pearson (ps : list (Q * Q)) : Checked.pearson ps = inr (pearson ps).
Proof.
  destruct ps as [|p ps].
  - cbn [Checked.pearson]. unfold mret, Checked.result_ret. f_equal. symmetry.
    apply pearson_degenerate. reflexivity.
  - unfold Checked.pearson. rewrite !checked_centered by discriminate.
    cbn [mbind Checked.result_bind].
    destruct (Qeq_bool _ 0) eqn:E; [|reflexivity].
    unfold mret, Checked.result_ret. f_equal. symmetry.
    apply pearson_degenerate. apply Qeq_bool_iff. exact E.
Qed.

Lemma checked_correlation_entry (a b : nat * column) :
  Checked.correlation_entry a b = inr (correlation_entry a b).
Proof.
  unfold Checked.correlation_entry, correlation_entry.
  destruct (fst a =? fst b)%nat; [reflexivity|apply checked_pearson].
Qed.

Lemma checked_category_table (top_k : nat) (cells : list cell) :
  Checked.category_table top_k cells = inr (category_table top_k cells).
Proof.
  unfold Checked.category_table, category_table. apply traverse_map.
  intros e He. apply In_firstn in He. apply (proj1 (In_sort_desc _ _)) in He.
  apply (proj1 (In_value_counts _ _)) in He. destruct He as [Hv _].
  assert (Hlen : length (non_missing cells) <> 0%nat)
    by (destruct (non_missing cells); [destruct Hv|discriminate]).
  rewrite (divide_counts _ _ Hlen), (share_quotient _ _ Hlen). reflexivity.
Qed.

Lemma checked_max_share (mt : MissingTable) : Checked.max_share mt = inr (max_share mt).
Proof. destruct mt; reflexivity. Qed.

Lemma checked_duplicate_rate (c : ColumnSummary) :
  Checked.duplicate_rate c = inr (duplicate_rate c).
Proof.
  unfold Checked.duplicate_rate, duplicate_rate.
  destruct (Nat.eqb_spec (cs_non_null c) 0) as [_|H]; [reflexivity|].
  rewrite (divide_counts _ _ H), (share_quotient _ _ H). reflexivity.
Qed.

(** The columns with many zeros, selected after or before their shares are
    computed. *)
Lemma many_zeros_selected (cfg : Config) (cols : list ColumnSummary) :
  List.filter (fun z => Qle_bool (cfg_zero_share cfg) (mz_zero_share z))
    (map (fun c => {| mz_name := cs_name c; mz_zero_share := zero_share c |})
         (List.filter (fun c => bool_decide (cs_kind c = Numeric)) cols)) =
  map (fun c => {| mz_name := cs_name c; mz_zero_share := zero_share c |})
      (List.filter (has_many_zeros cfg) cols).
Proof.
  induction cols as [|c cols IH]; [reflexivity|]. cbn [List.filter]. unfold has_many_zeros at 1.
  destruct (bool_decide (cs_kind c = Numeric)); cbn [andb map List.filter mz_zero_share].
  - destruct (Qle_bool (cfg_zero_share cfg) (zero_share c)); cbn [map]; rewrite IH; reflexivity.
  - exact IH.
Qed.

(** No operation of the core raises: each function over the operations
    that can raise returns what the total function returns. *)
Lemma core_never_raises (t : table) (max_columns top_k : nat) (cfg : Config)
    (summary : DatasetSummary) (missing : MissingTable) :
  Checked.summarize_dataset t = inr (summarize_dataset t) /\
  Checked.missing_table t = inr (missing_table t) /\
  Checked.correlation_matrix t = inr (correlation_matrix t) /\
  Checked.top_categories t max_columns top_k = inr (top_categories t max_columns top_k) /\
  Checked.compute_quality_flags cfg summary missing =
    inr (compute_quality_flags cfg summary missing).
Proof.
  split.
  { unfold Checked.summarize_dataset.
    rewrite (traverse_map _ (summarize_column (n_rows t)))
      by (intros c _; apply checked_summarize_column).
    reflexivity. }
  split.
  { unfold Checked.missing_table, missing_table. apply traverse_map.
    intros c _. rewrite checked_share. reflexivity. }
  split.
  { unfold Checked.correlation_matrix, correlation_matrix.
    destruct (length (List.filter is_numeric t) <? 2)%nat; [reflexivity|].
    rewrite (traverse_map _ (fun a => map (correlation_entry a)
                                        (indexed (List.filter is_numeric t)))).
    - reflexivity.
    - intros a _. apply traverse_map. intros b _. apply checked_correlation_entry. }
  split.
  { unfold Checked.top_categories, top_categories. apply traverse_map.
    intros c _. rewrite checked_category_table. reflexivity. }
  unfold Checked.compute_quality_flags.
  rewrite checked_max_share. cbn [mbind Checked.result_bind].
  rewrite (traverse_map _ (fun c => {| idi_name := cs_name c;
                                       idi_duplicate_rate := duplicate_rate c |}))
    by (intros c _; rewrite checked_duplicate_rate; reflexivity).
  cbn [mbind Checked.result_bind].
  rewrite (traverse_map _ (fun c => {| mz_name := cs_name c; mz_zero_share := zero_share c |}))
    by (intros c _; unfold Checked.zero_share; rewrite checked_share; reflexivity).
  cbn [mbind Checked.result_bind]. rewrite many_zeros_selected. reflexivity.
Qed.

(** ** C2: degenerate tables *)

Lemma existsb_false {A : Type} (p : A -> bool) (l : list A) :
  (forall x, In x l -> p x = false) -> existsb p l = false.
Proof.
  induction l as [|x l IH]; intros H; [reflexivity|]. cbn [existsb].
  rewrite (H x (or_introl eq_refl)), IH; [reflexivity|].
  intros y Hy. apply H. right. exact Hy.
Qed.

Lemma n_rows_zero_rows cols : n_rows (zero_rows cols) = 0%nat.
Proof. destruct cols; reflexivity. Qed.

Lemma zero_rows_cells cols c : In c (zero_rows cols) -> col_cells c = [].
Proof. unfold zero_rows. intros H. apply in_map_iff in H as [n [<- _]]. reflexivity. Qed.

Lemma summarize_zero_rows cols :
  summarize_dataset (zero_rows cols) =
  {| ds_n_rows := 0; ds_n_cols := length cols;
     ds_columns := map empty_column_summary cols |}.
Proof.
  unfold summarize_dataset. rewrite n_rows_zero_rows. unfold n_cols, zero_rows.
  rewrite length_map, map_map. f_equal. apply map_ext. intros [name [|]]; reflexivity.
Qed.

Lemma missing_zero_rows cols :
  missing_table (zero_rows cols) =
  map (fun c => {| mr_name := fst c; mr_missing_count := 0; mr_missing_share := 0 |}) cols.
Proof.
  unfold missing_table. rewrite n_rows_zero_rows. unfold zero_rows.
  rewrite map_map. reflexivity.
Qed.

Lemma fold_max_zeros (l : list Q) :
  Forall (fun x => x = 0) l -> fold_left Qmax l 0 = 0.
Proof.
  induction 1 as [|x l -> _ IH]; [reflexivity|]. cbn [fold_left].
  change (Qmax 0 0) with 0. exact IH.
Qed.

Lemma max_share_zero_rows cols : max_share (missing_table (zero_rows cols)) = 0.
Proof.
  rewrite missing_zero_rows. unfold max_share. rewrite map_map. cbn [mr_missing_share].
  destruct cols as [|n cols]; [reflexivity|]. cbn [map].
  apply fold_max_zeros. apply Forall_map, Forall_forall. reflexivity.
Qed.

(** Without rows a column is of the kind it was loaded with. *)
Lemma zero_rows_kinds cols (k : kind) :
  List.filter (fun c => bool_decide (infer_kind c = k)) (zero_rows cols) =
  zero_rows (List.filter (fun c => bool_decide (snd c = k)) cols).
Proof.
  unfold zero_rows. induction cols as [|[name k'] cols IH]; [reflexivity|].
  cbn [map List.filter snd fst].
  change (infer_kind (Column name k' [])) with k'.
  destruct (bool_decide (k' = k)); cbn [map]; rewrite IH; reflexivity.
Qed.

Lemma zero_rows_flags large ratio pen cols f :
  flag_triggered (compute_quality_flags (default_config large ratio pen)
                    (summarize_dataset (zero_rows cols))
                    (missing_table (zero_rows cols))) f =
  match f with
  | TooFewRows => true
  | TooManyColumns => (100 <? length cols)%nat
  | _ => false
  end.
Proof.
  rewrite flag_triggered_compute, summarize_zero_rows, max_share_zero_rows.
  cbn [ds_n_rows ds_n_cols ds_columns].
  destruct f; try reflexivity; apply existsb_false; intros c Hc;
    apply in_map_iff in Hc as [[name k] [<- _]]; try reflexivity.
  - unfold id_suspicious. apply andb_false_r.
  - destruct k; reflexivity.
  - destruct k; reflexivity.
Qed.

Lemma share_range (a b : nat) : (a <= b)%nat -> 0 <= share a b <= 1.
Proof.
  intros H. unfold share. destruct (Nat.eqb_spec b 0) as [_|Hb]; [lra|].
  assert (Hb' : 0 < Qnat b) by (change 0 with (Qnat 0); apply Qnat_lt; lia).
  assert (Ha : 0 <= Qnat a) by (unfold Qnat; change 0 with (inject_Z 0); rewrite <- Zle_Qle; lia).
  assert (Hab : Qnat a <= Qnat b) by (unfold Qnat; rewrite <- Zle_Qle; lia).
  fold (Qnat a). fold (Qnat b). split.
  - apply Qle_shift_div_l; [exact Hb'|lra].
  - apply Qle_shift_div_r; [exact Hb'|lra].
Qed.

(** The summary and the missing table of a well-formed table have one entry
    per column, in order; the counts add up to the row count and every
    missing share lies in [0,1]. *)
Lemma summary_invariants (t : table) :
  well_formed t ->
  ds_n_rows (summarize_dataset t) = n_rows t /\
  ds_n_cols (summarize_dataset t) = length t /\
  map cs_name (ds_columns (summarize_dataset t)) = map col_name t /\
  map mr_name (missing_table t) = map col_name t /\
  Forall (fun c => (cs_non_null c + cs_missing c = n_rows t)%nat /\
                   0 <= cs_missing_share c <= 1)
         (ds_columns (summarize_dataset t)) /\
  Forall (fun r => (mr_missing_count r <= n_rows t)%nat /\
                   0 <= mr_missing_share r <= 1)
         (missing_table t).
Proof.
  intros Hwf.
  split; [reflexivity|]. split; [reflexivity|].
  split; [cbn [ds_columns summarize_dataset]; rewrite map_map; reflexivity|].
  split; [unfold missing_table; rewrite map_map; reflexivity|].
  assert (Hle : forall c, In c t -> (count_missing (col_cells c) <= n_rows t)%nat).
  { intros c Hc. unfold well_formed in Hwf. rewrite Forall_forall in Hwf.
    rewrite <- (Hwf c Hc).
    pose proof (missing_split (col_cells c)). lia. }
  split.
  - cbn [ds_columns summarize_dataset]. apply Forall_map, Forall_forall. intros c Hc.
    rewrite ?list_elem_of_In in Hc. cbn [cs_non_null cs_missing cs_missing_share summarize_column].
    split; [|apply share_range, Hle, Hc].
    unfold well_formed in Hwf. rewrite Forall_forall in Hwf.
    rewrite <- (Hwf c Hc). apply missing_split.
  - unfold missing_table. apply Forall_map, Forall_forall. intros c Hc.
    rewrite ?list_elem_of_In in Hc. cbn [mr_missing_count mr_missing_share].
    split; [apply Hle, Hc|apply share_range, Hle, Hc].
Qed.



End CoreFacts.

(* ================================================================== *)
(** * Properties of the command surface *)
(* ================================================================== *)

Module CliFacts.
Import Core Frames Cli Worlds CoreFacts.

(** ** Text *)

Lemma append_cons (a : ascii) (n b : string) : String a n +:+ b = String a (n +:+ b).
Proof. reflexivity. Qed.

Lemma append_empty_l (b : string) : "" +:+ b = b.
Proof. reflexivity. Qed.

Lemma append_empty_r (n : string) : n +:+ "" = n.
Proof.
  induction n as [|c n IH]; [reflexivity|]. rewrite append_cons, IH. reflexivity.
Qed.

Lemma prefix_append (n b : string) : String.prefix n (n +:+ b) = true.
Proof.
  induction n as [|a n IH]; [destruct b; reflexivity|].
  rewrite append_cons. cbn [String.prefix].
  destruct (ascii_dec a a) as [_|H]; [exact IH|contradiction].
Qed.

(** A message built around a text contains it. *)
Lemma contains_append (n a b : string) : contains n (a +:+ n +:+ b) = true.
Proof.
  induction a as [|c a IH].
  - rewrite append_empty_l.
    destruct (n +:+ b) eqn:E; cbn [contains]; rewrite <- E, prefix_append; reflexivity.
  - rewrite append_cons. cbn [contains]. rewrite IH. apply orb_true_r.
Qed.

Lemma contains_suffix (n a : string) : contains n (a +:+ n) = true.
Proof.
  rewrite <- (append_empty_r n) at 2. apply contains_append.
Qed.

(** ** C7: loading the input *)

Section LoadFacts.

Variable parse_csv : string -> string -> string -> exn + table.

(** What [pd.read_csv] does on a path. *)
Lemma pd_read_csv_result path sep encoding w :
  pd_read_csv parse_csv path sep encoding w =
  (match fs_lookup (w_fs w) path with
   | Some (File content) => parse_csv content sep encoding
   | Some Dir => inl (Raised "IsADirectoryError" (path_str path))
   | Some (Denied cls msg) => inl (Raised cls msg)
   | None => inl (Raised "FileNotFoundError" (path_str path))
   end, log (EvReadCsv path sep encoding) w).
Proof.
  unfold pd_read_csv.
  destruct (fs_lookup (w_fs w) path) as [[|content|cls msg]|]; try reflexivity.
  destruct (parse_csv content sep encoding); reflexivity.
Qed.

(** The existence check is made before the [try]: what it raises is not
    wrapped. *)
Lemma load_csv_denied path sep encoding w cls msg :
  fs_lookup (w_fs w) path = Some (Denied cls msg) ->
  _load_csv parse_csv path sep encoding w = (inl (Raised cls msg), w).
Proof.
  intros H. unfold _load_csv, mbind, io_bind, path_exists. rewrite H. reflexivity.
Qed.

Lemma load_csv_missing path sep encoding w :
  fs_lookup (w_fs w) path = None ->
  _load_csv parse_csv path sep encoding w =
  (inl (BadParameter ("Файл '" +:+ path_str path +:+ "' не найден") None), w).
Proof.
  intros H. unfold _load_csv, mbind, io_bind, path_exists. rewrite H. reflexivity.
Qed.

Lemma load_csv_found path sep encoding w node :
  fs_lookup (w_fs w) path = Some node ->
  is_denied (Some node) = false ->
  _load_csv parse_csv path sep encoding w =
  (match fst (pd_read_csv parse_csv path sep encoding w) with
   | inl exc => inl (BadParameter ("Не удалось прочитать CSV: " +:+ exn_str exc) (Some exc))
   | inr df => inr df
   end, log (EvReadCsv path sep encoding) w).
Proof.
  intros H Hd. unfold _load_csv, mbind, io_bind, path_exists. rewrite H.
  assert (E : (match node with
               | Denied cls msg => (inl (Raised cls msg), w)
               | _ => (@inr exn bool true, w)
               end) = (inr true, w)) by (destruct node; [reflexivity|reflexivity|discriminate]).
  rewrite E. cbn [negb].
  unfold try_except. rewrite pd_read_csv_result, H. cbn [fst].
  destruct node as [|content|cls msg]; [reflexivity| |discriminate].
  destruct (parse_csv content sep encoding); reflexivity.
Qed.

(** A failed load has changed nothing and has read at most once; unless the
    operating system refuses the path, its error is a [BadParameter]. *)
Lemma load_csv_failure path sep encoding w e w' :
  _load_csv parse_csv path sep encoding w = (inl e, w') ->
  w_fs w' = w_fs w /\
  (w_trace w' = w_trace w \/ w_trace w' = w_trace w ++ [EvReadCsv path sep encoding]) /\
  (is_denied (fs_lookup (w_fs w) path) = false -> is_bad_parameter e = true).
Proof.
  destruct (fs_lookup (w_fs w) path) as [node|] eqn:Hlook.
  - destruct (is_denied (Some node)) eqn:Hd.
    + destruct node as [| |cls msg]; try discriminate.
      rewrite (load_csv_denied path sep encoding w cls msg Hlook).
      intros [= <- <-]. split; [reflexivity|]. split; [left; reflexivity|discriminate].
    + rewrite (load_csv_found path sep encoding w node Hlook Hd).
      destruct (fst (pd_read_csv parse_csv path sep encoding w)); [|discriminate].
      intros [= <- <-]. split; [reflexivity|]. split; [right; reflexivity|reflexivity].
  - rewrite (load_csv_missing path sep encoding w Hlook).
    intros [= <- <-]. split; [reflexivity|]. split; [left; reflexivity|reflexivity].
Qed.


End LoadFacts.

(** ** C8: the preview *)

Lemma df_head_nonneg (n : Z) (df : table) :
  (0 <= n)%Z ->
  df_head n df =
  map (fun c => Column (col_name c) (col_dtype c) (firstn (Z.to_nat n) (col_cells c))) df.
Proof.
  intros H. unfold df_head. apply map_ext. intros c.
  destruct (Z.leb_spec 0 n) as [_|H']; [reflexivity|lia].
Qed.

Lemma n_rows_df_head (n : Z) (df : table) :
  (0 <= n)%Z -> n_rows (df_head n df) = Nat.min (Z.to_nat n) (n_rows df).
Proof.
  intros H. rewrite df_head_nonneg by exact H.
  destruct df as [|c df]; cbn [map n_rows col_cells]; [lia|]. apply length_firstn.
Qed.

Lemma df_head_all (n : Z) (df : table) :
  well_formed df -> (Z.of_nat (n_rows df) <= n)%Z -> df_head n df = df.
Proof.
  intros Hwf H. rewrite df_head_nonneg by lia.
  rewrite <- (map_id df) at 2. apply map_ext_in. intros c Hc.
  unfold well_formed in Hwf. rewrite Forall_forall in Hwf.
  rewrite firstn_all2; [destruct c; reflexivity|].
  rewrite (Hwf c) by (rewrite ?list_elem_of_In; exact Hc). lia.
Qed.

Lemma df_head_well_formed (n : Z) (df : table) :
  (0 <= n)%Z -> well_formed df -> well_formed (df_head n df).
Proof.
  intros H Hwf. unfold well_formed. rewrite n_rows_df_head by exact H.
  rewrite df_head_nonneg by exact H. apply Forall_map, Forall_forall. intros c Hc.
  cbn [col_cells]. rewrite length_firstn.
  unfold well_formed in Hwf. rewrite Forall_forall in Hwf. rewrite (Hwf c Hc). reflexivity.
Qed.

Section HeadFacts.

Variable parse_csv : string -> string -> string -> exn + table.
Variable df_to_string : table -> string.

(** C8, as amended.  For a loaded table and a requested row count [n >= 0],
    [head] does not fail and prints the first [min(n, rows)] rows: a request beyond the
    row count is clamped to it and the whole table is printed, otherwise
    exactly the first [n] rows are. *)
Theorem head_clamps (path : Path) (n : Z) (sep encoding : string) (w w1 : World)
    (df : table) :
  (0 <= n)%Z ->
  well_formed df ->
  _load_csv parse_csv path sep encoding w = (inr df, w1) ->
  let rows := Z.of_nat (n_rows df) in
  let shown := Z.min n rows in
  let r := head parse_csv df_to_string path n sep encoding w in
  fst r = inr tt /\
  w_fs (snd r) = w_fs w1 /\
  (exists banner totals columns,
     w_trace (snd r) =
     w_trace w1 ++ banner ++
       [EvEcho (df_to_string (df_head shown df)); EvEcho totals; EvEcho columns] /\
     Forall (fun e => exists line, e = EvEcho line) banner) /\
  df_head shown df =
    map (fun c => Column (col_name c) (col_dtype c)
                    (firstn (Z.to_nat shown) (col_cells c))) df /\
  n_rows (df_head shown df) = Z.to_nat shown /\
  well_formed (df_head shown df) /\
  ((rows < n)%Z -> shown = rows /\ df_head shown df = df) /\
  ((n <= rows)%Z -> shown = n).
Proof.
  intros Hn Hwf Hload rows shown r.
  assert (Hshown : (0 <= shown)%Z) by (unfold shown, rows; lia).
  assert (Hr : r = (inr tt,
            {| w_fs := w_fs w1;
               w_trace := w_trace w1 ++
                 (if (rows <? n)%Z
                  then [EvEcho ("Запрошено " +:+ string_of_Z n +:+ " строк, но в файле всего "
                                +:+ string_of_Z rows +:+ " строк.");
                        EvEcho ("Будут выведены все " +:+ string_of_Z rows +:+ " строк:" +:+ nl)]
                  else [EvEcho ("Первые " +:+ string_of_Z n +:+ " строк из "
                                +:+ string_of_Z rows +:+ ":" +:+ nl)]) ++
                 [EvEcho (df_to_string (df_head shown df));
                  EvEcho (nl +:+ "Всего строк: " +:+ string_of_Z rows +:+ ", столбцов: "
                          +:+ string_of_nat (n_cols df));
                  EvEcho ("Столбцы: " +:+ String.concat ", " (map col_name df))] |})).
  { unfold r, head, mbind, io_bind. rewrite Hload. fold rows.
    unfold shown. destruct (Z.ltb_spec rows n) as [Hlt|Hge].
    - rewrite Z.min_r by lia. unfold echo, log, mret, io_ret. cbn [w_fs w_trace].
      rewrite <- !app_assoc. reflexivity.
    - rewrite Z.min_l by lia. unfold echo, log, mret, io_ret. cbn [w_fs w_trace].
      rewrite <- !app_assoc. reflexivity. }
  rewrite Hr. cbn [fst snd w_fs w_trace].
  split; [reflexivity|]. split; [reflexivity|].
  split.
  { eexists _, _, _. split; [reflexivity|].
    destruct (rows <? n)%Z; repeat constructor; eexists; reflexivity. }
  split; [apply df_head_nonneg; exact Hshown|].
  split; [rewrite n_rows_df_head by exact Hshown; unfold shown, rows; lia|].
  split; [apply df_head_well_formed; assumption|].
  split.
  - intros Hlt. assert (E : shown = rows) by (unfold shown; lia).
    split; [exact E|]. rewrite E. apply df_head_all; [exact Hwf|unfold rows; lia].
  - intros Hle. unfold shown. lia.
Qed.

End HeadFacts.

(** A negative row count is not clamped: pandas drops the last rows. *)
Lemma df_head_negative :
  df_head (-1) sample_df =
  [ Column "age" Numeric [num 10; num 20; num 30];
    Column "height" Numeric (nums [140; 150; 160]%Z);
    Column "city" Categorical [txt "A"; txt "B"; txt "A"] ].
Proof. reflexivity. Qed.

(** [head] with [n = -1] on the sample file of four rows, the table printed
    as its number of rows: the command succeeds, announces -1 rows and
    prints three, which is not [min(-1, 4)] rows. *)
Lemma head_negative_not_clamped :
  let r := head sample_parse (fun df => string_of_nat (n_rows df))
                ["data.csv"] (-1) "," "utf-8" sample_world in
  fst r = inr tt /\
  w_trace (snd r) =
    [ EvReadCsv ["data.csv"] "," "utf-8";
      EvEcho ("Первые -1 строк из 4:" +:+ nl);
      EvEcho "3";
      EvEcho (nl +:+ "Всего строк: 4, столбцов: 3");
      EvEcho "Столбцы: age, height, city" ] /\
  n_rows (df_head (-1) sample_df) = 3%nat /\
  Z.of_nat (n_rows (df_head (-1) sample_df)) <> Z.min (-1) (Z.of_nat (n_rows sample_df)).
Proof.
  cbv zeta. split; [vm_compute; reflexivity|]. split; [vm_compute; reflexivity|].
  split; [reflexivity|]. vm_compute. discriminate.
Qed.

(** ** The file system under [mkdir] *)

Lemma lookup_make_dirs (fs : gmap Path node) (l : list Path) (p : Path) :
  fold_right (fun q fs => <[q := Dir]> fs) fs l !! p =
  if bool_decide (p ∈ l) then Some Dir else fs !! p.
Proof.
  induction l as [|q l IH]; cbn [fold_right].
  - rewrite bool_decide_eq_false_2; [reflexivity|apply not_elem_of_nil].
  - destruct (decide (q = p)) as [->|Hne].
    + rewrite lookup_insert_eq.
      rewrite bool_decide_eq_true_2; [reflexivity|apply elem_of_cons; left; reflexivity].
    + rewrite lookup_insert_ne by exact Hne. rewrite IH.
      apply (f_equal (fun b : bool => if b then Some Dir else fs !! p)).
      apply bool_decide_ext. rewrite elem_of_cons. intuition congruence.
Qed.

Lemma prefixes_nonempty (p q : Path) : In q (prefixes p) -> q <> [].
Proof.
  unfold prefixes. intros H. apply in_map_iff in H as [k [<- Hk]].
  apply in_seq in Hk. destruct p as [|x p]; [cbn in Hk; lia|].
  destruct k; [lia|discriminate].
Qed.

Lemma prefixes_self (p : Path) : p <> [] -> In p (prefixes p).
Proof.
  intros H. unfold prefixes. apply in_map_iff. exists (length p).
  split; [apply firstn_all|]. apply in_seq. destruct p; [contradiction|cbn; lia].
Qed.

Lemma mkdir_parents_ok (p : Path) (w w1 : World) :
  mkdir_parents p w = (inr tt, w1) ->
  w_fs w1 = fold_right (fun q fs => <[q := Dir]> fs) (w_fs w) (prefixes p) /\
  w_trace w1 = w_trace w ++ [EvMkdir p] /\
  (forall q, In q (prefixes p) -> is_file (fs_lookup (w_fs w) q) = false).
Proof.
  unfold mkdir_parents.
  destruct (List.find _ (prefixes p)) as [q|] eqn:E; [discriminate|].
  intros [= <-]. cbn [w_fs w_trace log]. split; [reflexivity|]. split; [reflexivity|].
  intros q Hq. pose proof (find_none _ _ E q Hq) as Hn. cbn beta in Hn.
  unfold blocks_mkdir in Hn. apply orb_false_iff in Hn. exact (proj1 Hn).
Qed.

(** After a successful [mkdir] the directory exists and no regular file has
    appeared, disappeared or changed. *)
Lemma mkdir_parents_effect (p : Path) (w w1 : World) :
  mkdir_parents p w = (inr tt, w1) ->
  fs_lookup (w_fs w1) p = Some Dir /\
  (forall q content, w_fs w1 !! q = Some (File content) <-> w_fs w !! q = Some (File content)).
Proof.
  intros H. destruct (mkdir_parents_ok p w w1 H) as (Hfs & _ & Hfiles). split.
  - destruct p as [|x p]; [reflexivity|]. cbn [fs_lookup].
    rewrite Hfs, lookup_make_dirs.
    rewrite bool_decide_eq_true_2; [reflexivity|].
    apply list_elem_of_In, prefixes_self. discriminate.
  - intros q content. rewrite Hfs, lookup_make_dirs.
    destruct (bool_decide (q ∈ prefixes p)) eqn:E; [|reflexivity].
    apply bool_decide_eq_true in E. rewrite list_elem_of_In in E.
    pose proof (Hfiles q E) as Hq.
    pose proof (prefixes_nonempty p q E) as Hne.
    destruct q as [|y q]; [contradiction|]. cbn [fs_lookup] in Hq.
    split; [discriminate|]. intros Hc. rewrite Hc in Hq. discriminate.
Qed.

(** ** C10 and C9: the report *)

Section ReportFacts.

Variable parse_csv : string -> string -> string -> exn + table.
Variable summary_to_csv : DatasetSummary -> string.
Variable missing_to_csv : MissingTable -> string.
Variable corr_to_csv : CorrelationMatrix -> string.
Variable render_markdown : string -> ReportOptions -> ReportData -> string.
Variable format_percent : Q -> string.
Variable save_top_categories_tables : list (string * list CategoryEntry) -> Path -> IO unit.
Variable plot_histograms_per_column : table -> Path -> Z -> IO unit.
Variable plot_missing_matrix : table -> Path -> IO unit.
Variable plot_correlation_heatmap : table -> Path -> IO unit.
Variable core_config : Config.

(** C10.  [report] creates the output directory before it loads the input.
    When the directory can be created and the load then fails, [report]
    fails with the error of the load; the output directory exists
    afterwards, nothing was written (the regular files are those from before
    the call, and the only calls were [mkdir] and at most one read), and a
    directory that did not exist before stays behind. *)
Theorem report_load_failure (path : Path) (o : ReportOptions) (w w1 w2 : World) (e : exn) :
  mkdir_parents (out_dir o) w = (inr tt, w1) ->
  _load_csv parse_csv path (sep o) (encoding o) w1 = (inl e, w2) ->
  report parse_csv summary_to_csv missing_to_csv corr_to_csv render_markdown
         format_percent save_top_categories_tables plot_histograms_per_column
         plot_missing_matrix plot_correlation_heatmap core_config path o w = (inl e, w2) /\
  fs_lookup (w_fs w2) (out_dir o) = Some Dir /\
  (forall q content, w_fs w2 !! q = Some (File content) <-> w_fs w !! q = Some (File content)) /\
  (w_trace w2 = w_trace w ++ [EvMkdir (out_dir o)] \/
   w_trace w2 = w_trace w ++ [EvMkdir (out_dir o); EvReadCsv path (sep o) (encoding o)]) /\
  (fs_lookup (w_fs w) (out_dir o) = None -> w_fs w2 <> w_fs w).
Proof.
  intros Hmk Hload.
  destruct (load_csv_failure parse_csv _ _ _ _ _ _ Hload) as (Hfs & Htr & _).
  destruct (mkdir_parents_effect _ _ _ Hmk) as (Hdir & Hfiles).
  destruct (mkdir_parents_ok _ _ _ Hmk) as (_ & Htr1 & _).
  split; [unfold report, mbind, io_bind; rewrite Hmk, Hload; reflexivity|].
  rewrite Hfs.
  split; [exact Hdir|]. split; [exact Hfiles|].
  split.
  - destruct Htr as [-> | ->]; rewrite Htr1; [left; reflexivity|right].
    rewrite <- app_assoc. reflexivity.
  - intros Hnone E. rewrite E in Hdir. congruence.
Qed.

End ReportFacts.

(** C9, as amended.  [report] takes the number of values per category
    ([top_k_categories], default 5), the number of histograms
    ([max_hist_columns], default 6), the missing-share threshold
    ([min_missing_share], default 0.1) and the title from its options.  The
    number of categorical columns profiled is the constant 20 and the
    thresholds of the quality flags are those of the core: no option changes
    them. *)
Theorem report_parameters (core_config : Config) (o : ReportOptions) (df : table) :
  let d := report_analysis core_config o df in
  rd_top_cats d = top_categories df 20 (Z.to_nat (top_k_categories o)) /\
  (length (rd_top_cats d) <= 20)%nat /\
  (forall o', top_k_categories o' = top_k_categories o ->
     rd_top_cats (report_analysis core_config o' df) = rd_top_cats d) /\
  (forall o', rd_quality_flags (report_analysis core_config o' df) = rd_quality_flags d) /\
  rd_quality_flags d =
    compute_quality_flags core_config (summarize_dataset df) (missing_table df) /\
  (forall name, In name (rd_problematic_cols d) <->
     exists r, In r (missing_table df) /\ mr_name r = name /\
               (min_missing_share o <= mr_missing_share r)%Q) /\
  (top_k_categories default_options = 5%Z /\
   max_hist_columns default_options = 6%Z /\
   min_missing_share default_options = (1 # 10)%Q).
Proof.
  intros d. unfold d, report_analysis. cbn [rd_top_cats rd_quality_flags rd_problematic_cols].
  split; [reflexivity|].
  split; [unfold top_categories; rewrite length_map, length_firstn; lia|].
  split; [intros o' ->; reflexivity|].
  split; [reflexivity|]. split; [reflexivity|].
  split; [|repeat split].
  intros name. destruct (missing_table df) as [|r0 l] eqn:E.
  - cbn. split; [intros []|intros [r [[] _]]].
  - cbn [nonempty]. rewrite in_map_iff. split.
    + intros [r [Hn Hr]]. apply filter_In in Hr as [Hin Hle].
      apply Qle_bool_iff in Hle. exists r. tauto.
    + intros [r (Hin & Hn & Hle)]. exists r. split; [exact Hn|].
      apply filter_In. split; [exact Hin|]. apply Qle_bool_iff. exact Hle.
Qed.

(** ** Concrete runs *)



Lemma sample_load :
  _load_csv sample_parse ["data.csv"] "," "utf-8" sample_world =
  (inr sample_df, log (EvReadCsv ["data.csv"] "," "utf-8") sample_world).
Proof.
  rewrite (load_csv_found sample_parse _ _ _ _ (File "a,b"))
    by (vm_compute; reflexivity).
  rewrite pd_read_csv_result.
  replace (fs_lookup (w_fs sample_world) ["data.csv"]) with (Some (File "a,b"))
    by (vm_compute; reflexivity).
  reflexivity.
Qed.

Lemma head_clamps_witness :
  (0 <= 10)%Z /\
  well_formed sample_df /\
  _load_csv sample_parse ["data.csv"] "," "utf-8" sample_world =
    (inr sample_df, log (EvReadCsv ["data.csv"] "," "utf-8") sample_world) /\
  fst (head sample_parse (fun _ => "") ["data.csv"] 10 "," "utf-8" sample_world) = inr tt /\
  df_head (Z.min 10 (Z.of_nat (n_rows sample_df))) sample_df = sample_df.
Proof.
  assert (Hn : (0 <= 10)%Z) by lia.
  assert (Hwf : well_formed sample_df) by (repeat constructor).
  pose proof (head_clamps sample_parse (fun _ => "") ["data.csv"] 10 "," "utf-8"
                sample_world _ sample_df Hn Hwf sample_load) as H.
  cbv zeta in H. destruct H as (H1 & _ & _ & _ & _ & _ & H7 & _).
  split; [exact Hn|]. split; [exact Hwf|]. split; [exact sample_load|].
  split; [exact H1|]. apply H7. vm_compute. reflexivity.
Defined.

Lemma empty_mkdir :
  mkdir_parents ["reports"] empty_world = (inr tt, reports_world).
Proof.
  unfold mkdir_parents.
  replace (List.find _ (prefixes ["reports"])) with (@None Path) by (vm_compute; reflexivity).
  reflexivity.
Qed.

Lemma empty_load :
  _load_csv sample_parse ["data.csv"] "," "utf-8" reports_world =
  (inl (BadParameter "Файл 'data.csv' не найден" None), reports_world).
Proof.
  rewrite load_csv_missing by (vm_compute; reflexivity). reflexivity.
Qed.

Lemma report_load_failure_witness :
  mkdir_parents (out_dir default_options) empty_world = (inr tt, reports_world) /\
  _load_csv sample_parse ["data.csv"] (sep default_options) (encoding default_options)
    reports_world = (inl (BadParameter "Файл 'data.csv' не найден" None), reports_world) /\
  report sample_parse (fun _ => "") (fun _ => "") (fun _ => "") (fun _ _ _ => "")
         (fun _ => "") no_tables no_histograms no_plot no_plot sample_config
         ["data.csv"] default_options empty_world =
    (inl (BadParameter "Файл 'data.csv' не найден" None), reports_world) /\
  fs_lookup (w_fs empty_world) ["reports"] = None /\
  fs_lookup (w_fs reports_world) ["reports"] = Some Dir.
Proof.
  pose proof (report_load_failure sample_parse (fun _ => "") (fun _ => "") (fun _ => "")
                (fun _ _ _ => "") (fun _ => "") no_tables no_histograms no_plot no_plot
                sample_config ["data.csv"] default_options empty_world _ _ _
                empty_mkdir empty_load) as (H1 & H3 & _).
  split; [exact empty_mkdir|]. split; [exact empty_load|]. split; [exact H1|].
  split; [vm_compute; reflexivity|exact H3].
Defined.

Lemma report_parameters_witness :
  rd_top_cats (report_analysis sample_config default_options sample_df) =
  top_categories sample_df 20 5.
Proof. exact (proj1 (report_parameters sample_config default_options sample_df)). Defined.

(** A frame with 21 text columns: a cap of 21 would profile them all, but
    no options of [report] make it profile more than 20. *)
Lemma report_column_cap_fixed :
  length (top_categories wide_df 21 5) = 21%nat /\
  ~ (exists o, length (rd_top_cats (report_analysis sample_config o wide_df)) = 21%nat).
Proof.
  split; [vm_compute; reflexivity|].
  intros [o H]. unfold report_analysis in H. cbn [rd_top_cats] in H.
  unfold top_categories in H. rewrite length_map in H.
  vm_compute in H. discriminate.
Qed.

End CliFacts.

(* ================================================================== *)
(** * Runs of the commands *)
(* ================================================================== *)

Module CliRuns.
Import Core Frames Cli Worlds Contracts CoreFacts CliFacts.

(** ** What a load leaves behind *)

Lemma load_csv_world parse_csv path sep encoding w :
  let l := _load_csv parse_csv path sep encoding w in
  w_fs (snd l) = w_fs w /\
  (snd l = w \/ snd l = log (EvReadCsv path sep encoding) w) /\
  (forall df, fst l = inr df -> snd l = log (EvReadCsv path sep encoding) w).
Proof.
  cbv zeta. destruct (fs_lookup (w_fs w) path) as [node|] eqn:Hlook.
  - destruct (is_denied (Some node)) eqn:Hd.
    + destruct node as [| |cls msg]; try discriminate.
      rewrite (load_csv_denied parse_csv path sep encoding w cls msg Hlook). cbn [snd fst].
      split; [reflexivity|]. split; [left; reflexivity|intros df H; discriminate].
    + rewrite (load_csv_found parse_csv path sep encoding w node Hlook Hd). cbn [snd fst].
      split; [reflexivity|]. split; [right; reflexivity|intros; reflexivity].
  - rewrite (load_csv_missing parse_csv path sep encoding w Hlook). cbn [snd fst].
    split; [reflexivity|]. split; [left; reflexivity|intros df H; discriminate].
Qed.

(** The outcome of a load depends on the file system only. *)
Lemma load_csv_fs_only parse_csv path sep encoding w w' :
  w_fs w = w_fs w' ->
  fst (_load_csv parse_csv path sep encoding w) =
  fst (_load_csv parse_csv path sep encoding w').
Proof.
  intros E. destruct (fs_lookup (w_fs w) path) as [node|] eqn:Hlook.
  - destruct (is_denied (Some node)) eqn:Hd.
    + destruct node as [| |cls msg]; try discriminate.
      rewrite (load_csv_denied parse_csv path sep encoding w cls msg Hlook).
      rewrite E in Hlook.
      rewrite (load_csv_denied parse_csv path sep encoding w' cls msg Hlook). reflexivity.
    + rewrite (load_csv_found parse_csv path sep encoding w node Hlook Hd).
      rewrite E in Hlook.
      rewrite (load_csv_found parse_csv path sep encoding w' node Hlook Hd).
      rewrite !pd_read_csv_result, E. reflexivity.
  - rewrite (load_csv_missing parse_csv path sep encoding w Hlook).
    rewrite E in Hlook.
    rewrite (load_csv_missing parse_csv path sep encoding w' Hlook). reflexivity.
Qed.

Lemma load_csv_error_kind parse_csv path sep encoding w e :
  fst (_load_csv parse_csv path sep encoding w) = inl e ->
  is_denied (fs_lookup (w_fs w) path) = false -> is_bad_parameter e = true.
Proof.
  destruct (_load_csv parse_csv path sep encoding w) as [r w'] eqn:E. cbn [fst].
  intros ->. exact (proj2 (proj2 (load_csv_failure parse_csv _ _ _ _ _ _ E))).
Qed.

(** ** The previews: [head] and [overview] *)

Section HeadRuns.

Variable parse_csv : string -> string -> string -> exn + table.
Variable df_to_string : table -> string.

(** [head] for any [n] after a successful load. *)
Lemma head_after_load path n sep encoding w df w1 :
  _load_csv parse_csv path sep encoding w = (inr df, w1) ->
  let rows := Z.of_nat (n_rows df) in
  head parse_csv df_to_string path n sep encoding w =
  (inr tt,
   {| w_fs := w_fs w1;
      w_trace := w_trace w1 ++
        map EvEcho
          ((if (rows <? n)%Z
            then ["Запрошено " +:+ string_of_Z n +:+ " строк, но в файле всего "
                    +:+ string_of_Z rows +:+ " строк.";
                  "Будут выведены все " +:+ string_of_Z rows +:+ " строк:" +:+ nl]
            else ["Первые " +:+ string_of_Z n +:+ " строк из "
                    +:+ string_of_Z rows +:+ ":" +:+ nl]) ++
           [df_to_string (df_head (if (rows <? n)%Z then rows else n) df);
            head_totals df; head_columns df]) |}).
Proof.
  intros Hload rows. unfold head, mbind, io_bind. rewrite Hload. fold rows.
  destruct (rows <? n)%Z; unfold echo, log, mret, io_ret; cbn [w_fs w_trace map app];
    rewrite <- !app_assoc; reflexivity.
Qed.

Lemma head_fs path n sep encoding w :
  w_fs (snd (head parse_csv df_to_string path n sep encoding w)) = w_fs w.
Proof.
  pose proof (load_csv_world parse_csv path sep encoding w) as Hw.
  cbv zeta in Hw. destruct Hw as (Hfs & _).
  destruct (_load_csv parse_csv path sep encoding w) as [[e|df] w1] eqn:Hload;
    cbn [fst snd] in *.
  - unfold head, mbind, io_bind. rewrite Hload. exact Hfs.
  - rewrite (head_after_load path n sep encoding w df w1 Hload). exact Hfs.
Qed.

(** X1.  [head] never changes the file system.  When the load fails it
    fails with the error of the load (a [BadParameter], unless the operating
    system refuses the path) and prints nothing; otherwise it
    succeeds and prints five lines when [n] exceeds the row count and four
    lines otherwise, the last two being the size and the column names of the
    whole table, whatever [n] is. *)
Theorem head_outcomes (path : Path) (n : Z) (sep encoding : string) (w : World) :
  let r := head parse_csv df_to_string path n sep encoding w in
  let l := _load_csv parse_csv path sep encoding w in
  w_fs (snd r) = w_fs w /\
  match fst l with
  | inl e => r = (inl e, snd l) /\
             (is_denied (fs_lookup (w_fs w) path) = false -> is_bad_parameter e = true) /\
             (w_trace (snd r) = w_trace w \/
              w_trace (snd r) = w_trace w ++ [EvReadCsv path sep encoding])
  | inr df =>
      fst r = inr tt /\
      exists banner shown,
        w_trace (snd r) =
          w_trace w ++ EvReadCsv path sep encoding ::
            map EvEcho (banner ++ [df_to_string shown; head_totals df; head_columns df]) /\
        length banner = (if (Z.of_nat (n_rows df) <? n)%Z then 2 else 1)%nat
  end.
Proof.
  cbv zeta. pose proof (load_csv_world parse_csv path sep encoding w) as Hw.
  cbv zeta in Hw. destruct Hw as (Hfs & Htr & Hok).
  destruct (_load_csv parse_csv path sep encoding w) as [[e|df] w1] eqn:Hload;
    cbn [fst snd] in *.
  - assert (Hr : head parse_csv df_to_string path n sep encoding w = (inl e, w1))
      by (unfold head, mbind, io_bind; rewrite Hload; reflexivity).
    rewrite Hr. cbn [snd]. split; [exact Hfs|]. split; [reflexivity|].
    split; [apply (load_csv_error_kind parse_csv path sep encoding w); rewrite Hload; reflexivity|].
    destruct Htr as [-> | ->]; [left; reflexivity|right; reflexivity].
  - rewrite (head_after_load path n sep encoding w df w1 Hload). cbn [fst snd w_fs w_trace].
    split; [exact Hfs|]. split; [reflexivity|].
    rewrite (Hok df eq_refl). cbn [log w_trace].
    eexists _, _. split; [rewrite <- app_assoc; reflexivity|].
    destruct (Z.of_nat (n_rows df) <? n)%Z; reflexivity.
Qed.

(** X2.  A negative [n] is not rejected: [head] takes the branch of a
    request within the row count, announces [n] rows and prints the table
    without its last [-n] rows, which are [rows - |n|] rows (none when
    [|n|] reaches the row count). *)
Theorem head_negative (path : Path) (n : Z) (sep encoding : string) (w w1 : World)
    (df : table) :
  (n < 0)%Z ->
  _load_csv parse_csv path sep encoding w = (inr df, w1) ->
  let r := head parse_csv df_to_string path n sep encoding w in
  let shown := df_head n df in
  fst r = inr tt /\
  w_trace (snd r) =
    w_trace w1 ++
      map EvEcho ["Первые " +:+ string_of_Z n +:+ " строк из "
                    +:+ string_of_Z (Z.of_nat (n_rows df)) +:+ ":" +:+ nl;
                  df_to_string shown; head_totals df; head_columns df] /\
  shown = map (fun c => Column (col_name c) (col_dtype c)
                          (firstn (length (col_cells c) - Z.to_nat (- n)) (col_cells c))) df /\
  n_rows shown = (n_rows df - Z.to_nat (- n))%nat /\
  map col_name shown = map col_name df.
Proof.
  intros Hn Hload. cbv zeta.
  rewrite (head_after_load path n sep encoding w df w1 Hload). cbn [fst snd w_trace].
  destruct (Z.ltb_spec (Z.of_nat (n_rows df)) n) as [H|_]; [lia|].
  assert (Hshape : df_head n df =
            map (fun c => Column (col_name c) (col_dtype c)
                    (firstn (length (col_cells c) - Z.to_nat (- n)) (col_cells c))) df).
  { unfold df_head. apply map_ext. intros c.
    destruct (Z.leb_spec 0 n) as [H|_]; [lia|reflexivity]. }
  split; [reflexivity|]. split; [reflexivity|]. split; [exact Hshape|].
  split.
  - rewrite Hshape. destruct df as [|c df]; cbn [map n_rows col_cells]; [reflexivity|].
    rewrite length_firstn. lia.
  - rewrite Hshape, map_map. reflexivity.
Qed.

End HeadRuns.

Section OverviewRuns.

Variable parse_csv : string -> string -> string -> exn + table.
Variable summary_to_string : DatasetSummary -> string.

Lemma overview_after_load path sep encoding w df w1 :
  _load_csv parse_csv path sep encoding w = (inr df, w1) ->
  overview parse_csv summary_to_string path sep encoding w =
  (inr tt,
   {| w_fs := w_fs w1;
      w_trace := w_trace w1 ++
        map EvEcho
          ["Строк: " +:+ string_of_nat (ds_n_rows (summarize_dataset df));
           "Столбцов: " +:+ string_of_nat (ds_n_cols (summarize_dataset df));
           nl +:+ "Колонки:";
           summary_to_string (summarize_dataset df)] |}).
Proof.
  intros Hload. unfold overview, mbind, io_bind. rewrite Hload.
  unfold echo, log, mret, io_ret. cbn [w_fs w_trace map]. rewrite <- !app_assoc.
  reflexivity.
Qed.

Lemma overview_fs path sep encoding w :
  w_fs (snd (overview parse_csv summary_to_string path sep encoding w)) = w_fs w.
Proof.
  pose proof (load_csv_world parse_csv path sep encoding w) as Hw.
  cbv zeta in Hw. destruct Hw as (Hfs & _).
  destruct (_load_csv parse_csv path sep encoding w) as [[e|df] w1] eqn:Hload;
    cbn [fst snd] in *.
  - unfold overview, mbind, io_bind. rewrite Hload. exact Hfs.
  - rewrite (overview_after_load path sep encoding w df w1 Hload). exact Hfs.
Qed.

(** X3.  [overview] never changes the file system.  When the load fails it
    fails with the error of the load (a [BadParameter], unless the operating
    system refuses the path) and prints nothing; otherwise it
    succeeds and prints exactly four lines: the row count and the column
    count of the summary, a heading and the summary table. *)
Theorem overview_outcomes (path : Path) (sep encoding : string) (w : World) :
  let r := overview parse_csv summary_to_string path sep encoding w in
  let l := _load_csv parse_csv path sep encoding w in
  w_fs (snd r) = w_fs w /\
  match fst l with
  | inl e => r = (inl e, snd l) /\
             (is_denied (fs_lookup (w_fs w) path) = false -> is_bad_parameter e = true) /\
             (w_trace (snd r) = w_trace w \/
              w_trace (snd r) = w_trace w ++ [EvReadCsv path sep encoding])
  | inr df =>
      fst r = inr tt /\
      w_trace (snd r) =
        w_trace w ++ EvReadCsv path sep encoding ::
          map EvEcho
            ["Строк: " +:+ string_of_nat (ds_n_rows (summarize_dataset df));
             "Столбцов: " +:+ string_of_nat (ds_n_cols (summarize_dataset df));
             nl +:+ "Колонки:";
             summary_to_string (summarize_dataset df)]
  end.
Proof.
  cbv zeta. pose proof (load_csv_world parse_csv path sep encoding w) as Hw.
  cbv zeta in Hw. destruct Hw as (Hfs & Htr & Hok).
  destruct (_load_csv parse_csv path sep encoding w) as [[e|df] w1] eqn:Hload;
    cbn [fst snd] in *.
  - assert (Hr : overview parse_csv summary_to_string path sep encoding w = (inl e, w1))
      by (unfold overview, mbind, io_bind; rewrite Hload; reflexivity).
    rewrite Hr. cbn [snd]. split; [exact Hfs|]. split; [reflexivity|].
    split; [apply (load_csv_error_kind parse_csv path sep encoding w); rewrite Hload; reflexivity|].
    destruct Htr as [-> | ->]; [left; reflexivity|right; reflexivity].
  - rewrite (overview_after_load path sep encoding w df w1 Hload).
    cbn [fst snd w_fs w_trace]. split; [exact Hfs|]. split; [reflexivity|].
    rewrite (Hok df eq_refl). cbn [log w_trace]. rewrite <- app_assoc. reflexivity.
Qed.

End OverviewRuns.

(** X4.  The previews can be repeated: after [head] or [overview], whatever
    their arguments and outcome, loading any file gives what it gave
    before. *)
Theorem load_after_preview (parse_csv : string -> string -> string -> exn + table)
    (df_to_string : table -> string) (summary_to_string : DatasetSummary -> string)
    (path path' : Path) (n : Z) (sep encoding sep' encoding' : string) (w : World) :
  fst (_load_csv parse_csv path' sep' encoding'
         (snd (head parse_csv df_to_string path n sep encoding w))) =
    fst (_load_csv parse_csv path' sep' encoding' w) /\
  fst (_load_csv parse_csv path' sep' encoding'
         (snd (overview parse_csv summary_to_string path sep encoding w))) =
    fst (_load_csv parse_csv path' sep' encoding' w).
Proof.
  split; apply load_csv_fs_only; [apply head_fs|apply overview_fs].
Qed.

(** ** Steps of a command *)

Lemma bind_inr {A B : Type} (m : IO A) (k : A -> IO B) (w w' : World) (b : B) :
  mbind k m w = (inr b, w') ->
  exists a w1, m w = (inr a, w1) /\ k a w1 = (inr b, w').
Proof.
  unfold mbind, io_bind. destruct (m w) as [[e|a] w1]; [discriminate|].
  intros H. exists a, w1. split; [reflexivity|exact H].
Qed.

Lemma write_file_ok (p : Path) (content : string) (w w' : World) (u : unit) :
  write_file p content w = (inr u, w') ->
  w_fs w' = <[p := File content]> (w_fs w) /\ w_trace w' = w_trace w ++ [EvWrite p].
Proof.
  unfold write_file.
  destruct (fs_lookup (w_fs w) (path_parent p)) as [[|c|cls msg]|]; try discriminate.
  destruct (fs_lookup (w_fs w) p) as [[|c|cls msg]|]; try discriminate;
    intros [= _ <-]; split; reflexivity.
Qed.

Lemma when_write_ok (b : bool) (p : Path) (content : string) (w w' : World) (u : unit) :
  when b (write_file p content) w = (inr u, w') ->
  w_fs w' = if b then <[p := File content]> (w_fs w) else w_fs w.
Proof.
  destruct b; cbn [when].
  - intros H. exact (proj1 (write_file_ok _ _ _ _ _ H)).
  - intros [= _ <-]. reflexivity.
Qed.

Lemma echo_ok (line : string) (w w' : World) (u : unit) :
  echo line w = (inr u, w') ->
  w_fs w' = w_fs w /\ w_trace w' = w_trace w ++ [EvEcho line].
Proof. intros [= _ <-]. split; reflexivity. Qed.

Lemma prefixes_length (p q : Path) : In q (prefixes p) -> (length q <= length p)%nat.
Proof.
  unfold prefixes. intros H. apply in_map_iff in H as [k [<- _]].
  rewrite length_firstn. lia.
Qed.

Lemma path_join_not_prefix (p : Path) (name : string) : ~ In (path_join p name) (prefixes p).
Proof.
  intros H. apply prefixes_length in H. unfold path_join in H.
  rewrite length_app in H. cbn in H. lia.
Qed.

Lemma path_join_inj (p : Path) (a b : string) : a <> b -> path_join p a <> path_join p b.
Proof.
  unfold path_join. intros Hne E. apply app_inv_head in E. congruence.
Qed.

(** [mkdir] touches the prefixes of its path only. *)
Lemma mkdir_parents_other (p q : Path) (w w1 : World) :
  mkdir_parents p w = (inr tt, w1) -> ~ In q (prefixes p) -> w_fs w1 !! q = w_fs w !! q.
Proof.
  intros H Hq. destruct (mkdir_parents_ok p w w1 H) as (Hfs & _).
  rewrite Hfs, lookup_make_dirs. rewrite bool_decide_eq_false_2; [reflexivity|].
  rewrite list_elem_of_In. exact Hq.
Qed.

Lemma mkdir_parents_blocked (p q : Path) (w : World) :
  In q (prefixes p) -> is_file (fs_lookup (w_fs w) q) = true ->
  exists cls msg, mkdir_parents p w = (inl (Raised cls msg), log (EvMkdir p) w).
Proof.
  intros Hq Hf. unfold mkdir_parents.
  destruct (List.find _ (prefixes p)) as [q'|] eqn:E.
  - destruct (fs_lookup (w_fs w) q') as [[| |cls msg]|]; eexists _, _; reflexivity.
  - pose proof (find_none _ _ E q Hq) as Hn. cbn beta in Hn.
    unfold blocks_mkdir in Hn. rewrite Hf in Hn. discriminate.
Qed.

Section ReportRuns.

Variable parse_csv : string -> string -> string -> exn + table.
Variable summary_to_csv : DatasetSummary -> string.
Variable missing_to_csv : MissingTable -> string.
Variable corr_to_csv : CorrelationMatrix -> string.
Variable render_markdown : string -> ReportOptions -> ReportData -> string.
Variable format_percent : Q -> string.
Variable save_top_categories_tables : list (string * list CategoryEntry) -> Path -> IO unit.
Variable plot_histograms_per_column : table -> Path -> Z -> IO unit.
Variable plot_missing_matrix : table -> Path -> IO unit.
Variable plot_correlation_heatmap : table -> Path -> IO unit.
Variable core_config : Config.

Let run := report parse_csv summary_to_csv missing_to_csv corr_to_csv render_markdown
             format_percent save_top_categories_tables plot_histograms_per_column
             plot_missing_matrix plot_correlation_heatmap core_config.

(** X5.  [report] fails fast when the output directory cannot be created:
    if the directory or one of its ancestors is a regular file, the error of
    [mkdir] is raised as it is (not as a [BadParameter]), the input is never
    read and nothing is written or printed. *)
Theorem report_mkdir_failure (path : Path) (o : ReportOptions) (w : World) (q : Path) :
  In q (prefixes (out_dir o)) ->
  is_file (fs_lookup (w_fs w) q) = true ->
  exists e,
    run path o w = (inl e, {| w_fs := w_fs w; w_trace := w_trace w ++ [EvMkdir (out_dir o)] |}) /\
    is_bad_parameter e = false.
Proof.
  intros Hq Hf. destruct (mkdir_parents_blocked _ _ _ Hq Hf) as (cls & msg & Hmk).
  exists (Raised cls msg). split; [|reflexivity].
  unfold run, report, mbind, io_bind. rewrite Hmk. reflexivity.
Qed.

(** X6.  When the load fails after the directory step, the file system is
    exactly as before the call if and only if the output directory and all
    its ancestors were directories already. *)
Theorem report_load_failure_unchanged_iff (path : Path) (o : ReportOptions)
    (w w1 w2 : World) (e : exn) :
  mkdir_parents (out_dir o) w = (inr tt, w1) ->
  _load_csv parse_csv path (sep o) (encoding o) w1 = (inl e, w2) ->
  run path o w = (inl e, w2) /\
  (w_fs w2 = w_fs w <-> forall q, In q (prefixes (out_dir o)) -> w_fs w !! q = Some Dir).
Proof.
  intros Hmk Hload.
  destruct (load_csv_failure parse_csv _ _ _ _ _ _ Hload) as (Hfs & _).
  destruct (mkdir_parents_ok _ _ _ Hmk) as (Hfs1 & _).
  split; [unfold run, report, mbind, io_bind; rewrite Hmk, Hload; reflexivity|].
  rewrite Hfs, Hfs1. split.
  - intros E q Hq. rewrite <- E, lookup_make_dirs.
    rewrite bool_decide_eq_true_2; [reflexivity|]. rewrite list_elem_of_In. exact Hq.
  - intros H. apply map_eq. intros q. rewrite lookup_make_dirs.
    destruct (bool_decide (q ∈ prefixes (out_dir o))) eqn:E; [|reflexivity].
    apply bool_decide_eq_true in E. rewrite list_elem_of_In in E.
    symmetry. apply H. exact E.
Qed.

(** The steps of a successful run, one after the other. *)
Lemma report_steps (path : Path) (o : ReportOptions) (w w' : World) :
  run path o w = (inr tt, w') ->
  let out := out_dir o in
  exists w1 df w2 w3 w4 w5 w6 w7 w8 w9 w10,
    let d := report_analysis core_config o df in
    mkdir_parents out w = (inr tt, w1) /\
    _load_csv parse_csv path (sep o) (encoding o) w1 = (inr df, w2) /\
    write_file (path_join out "summary.csv") (summary_to_csv (rd_summary d)) w2 = (inr tt, w3) /\
    when (nonempty (rd_missing d))
         (write_file (path_join out "missing.csv") (missing_to_csv (rd_missing d))) w3
      = (inr tt, w4) /\
    when (negb (cm_empty (rd_corr d)))
         (write_file (path_join out "correlation.csv") (corr_to_csv (rd_corr d))) w4
      = (inr tt, w5) /\
    save_top_categories_tables (rd_top_cats d) (path_join out "top_categories") w5
      = (inr tt, w6) /\
    write_file (path_join out "report.md") (render_markdown (path_name path) o d) w6
      = (inr tt, w7) /\
    plot_histograms_per_column df out (max_hist_columns o) w7 = (inr tt, w8) /\
    plot_missing_matrix df (path_join out "missing_matrix.png") w8 = (inr tt, w9) /\
    plot_correlation_heatmap df (path_join out "correlation_heatmap.png") w9 = (inr tt, w10) /\
    w_fs w' = w_fs w10 /\
    w_trace w' =
      w_trace w10 ++ map EvEcho (report_done o) ++
        (if nonempty (rd_problematic_cols d)
         then [EvEcho ("- Проблемные колонки (пропуски ≥ "
                       +:+ format_percent (min_missing_share o) +:+ "): "
                       +:+ string_of_nat (length (rd_problematic_cols d)) +:+ " шт.")]
         else []).
Proof.
  intros Hrun out. unfold run, report in Hrun. fold out in Hrun.
  apply bind_inr in Hrun as ([] & w1 & Hmk & Hrun).
  apply bind_inr in Hrun as (df & w2 & Hload & Hrun).
  cbv zeta in Hrun.
  apply bind_inr in Hrun as ([] & w3 & H3 & Hrun).
  apply bind_inr in Hrun as ([] & w4 & H4 & Hrun).
  apply bind_inr in Hrun as ([] & w5 & H5 & Hrun).
  apply bind_inr in Hrun as ([] & w6 & H6 & Hrun).
  apply bind_inr in Hrun as ([] & w7 & H7 & Hrun).
  apply bind_inr in Hrun as ([] & w8 & H8 & Hrun).
  apply bind_inr in Hrun as ([] & w9 & H9 & Hrun).
  apply bind_inr in Hrun as ([] & w10 & H10 & Hrun).
  apply bind_inr in Hrun as ([] & w11 & H11 & Hrun).
  apply bind_inr in Hrun as ([] & w12 & H12 & Hrun).
  apply bind_inr in Hrun as ([] & w13 & H13 & Hrun).
  apply bind_inr in Hrun as ([] & w14 & H14 & Hrun).
  exists w1, df, w2, w3, w4, w5, w6, w7, w8, w9, w10. cbv zeta.
  repeat (split; [assumption|]).
  apply echo_ok in H11 as [F11 T11]. apply echo_ok in H12 as [F12 T12].
  apply echo_ok in H13 as [F13 T13]. apply echo_ok in H14 as [F14 T14].
  destruct (nonempty (rd_problematic_cols (report_analysis core_config o df))); cbn [when] in Hrun.
  - apply echo_ok in Hrun as [F15 T15]. split; [congruence|].
    rewrite T15, T14, T13, T12, T11. unfold report_done. fold out. cbn [map].
    rewrite <- !app_assoc. reflexivity.
  - injection Hrun as <-. split; [congruence|].
    rewrite T14, T13, T12, T11. unfold report_done. fold out. cbn [map].
    rewrite <- !app_assoc. reflexivity.
Qed.

End ReportRuns.

Section ReportArtifacts.

Variable parse_csv : string -> string -> string -> exn + table.
Variable summary_to_csv : DatasetSummary -> string.
Variable missing_to_csv : MissingTable -> string.
Variable corr_to_csv : CorrelationMatrix -> string.
Variable render_markdown : string -> ReportOptions -> ReportData -> string.
Variable format_percent : Q -> string.
Variable save_top_categories_tables : list (string * list CategoryEntry) -> Path -> IO unit.
Variable plot_histograms_per_column : table -> Path -> Z -> IO unit.
Variable plot_missing_matrix : table -> Path -> IO unit.
Variable plot_correlation_heatmap : table -> Path -> IO unit.
Variable core_config : Config.

Let run := report parse_csv summary_to_csv missing_to_csv corr_to_csv render_markdown
             format_percent save_top_categories_tables plot_histograms_per_column
             plot_missing_matrix plot_correlation_heatmap core_config.

(** X7.  A successful [report] ends with its closing lines: the message
    naming the title and the output directory, the path of the markdown
    file, the two lines listing the tables and the charts, and, exactly when
    some column reaches the missing-share threshold, the line counting these
    columns. *)
Theorem report_success_lines (path : Path) (o : ReportOptions) (w w' : World) :
  run path o w = (inr tt, w') ->
  exists df before,
    fst (_load_csv parse_csv path (sep o) (encoding o)
           (snd (mkdir_parents (out_dir o) w))) = inr df /\
    let problematic := rd_problematic_cols (report_analysis core_config o df) in
    w_trace w' =
      before ++ map EvEcho (report_done o) ++
        match problematic with
        | [] => []
        | _ => [EvEcho ("- Проблемные колонки (пропуски ≥ "
                        +:+ format_percent (min_missing_share o) +:+ "): "
                        +:+ string_of_nat (length problematic) +:+ " шт.")]
        end.
Proof.
  intros Hrun. destruct (report_steps _ _ _ _ _ _ _ _ _ _ _ _ _ _ _ Hrun)
    as (w1 & df & w2 & w3 & w4 & w5 & w6 & w7 & w8 & w9 & w10 & Hsteps).
  cbv zeta in Hsteps. destruct Hsteps as (Hmk & Hload & _ & _ & _ & _ & _ & _ & _ & _ & _ & Htr).
  exists df, (w_trace w10). rewrite Hmk. cbn [snd]. split.
  - rewrite Hload. reflexivity.
  - cbv zeta. rewrite Htr.
    destruct (rd_problematic_cols (report_analysis core_config o df)); reflexivity.
Qed.

(** X8.  After a successful [report], provided the writers of [viz.py],
    called as [report] calls them (the tables into [top_categories] of the
    output directory, the histograms into the output directory, the two
    charts to their files), leave the four files of [report] alone:
    summary.csv holds the rendered summary and report.md the rendered
    markdown of the loaded table; missing.csv and correlation.csv hold the
    rendered tables when these are not empty, and are otherwise what they
    were before the call (a file of an earlier run is neither removed nor
    rewritten). *)
Theorem report_success_files (path : Path) (o : ReportOptions) (w w' : World) :
  (forall tc p, In p (report_files (out_dir o)) ->
     keeps p (save_top_categories_tables tc (path_join (out_dir o) "top_categories"))) ->
  (forall df k p, In p (report_files (out_dir o)) ->
     keeps p (plot_histograms_per_column df (out_dir o) k)) ->
  (forall df p, In p (report_files (out_dir o)) ->
     keeps p (plot_missing_matrix df (path_join (out_dir o) "missing_matrix.png"))) ->
  (forall df p, In p (report_files (out_dir o)) ->
     keeps p (plot_correlation_heatmap df (path_join (out_dir o) "correlation_heatmap.png"))) ->
  run path o w = (inr tt, w') ->
  let out := out_dir o in
  exists df,
    fst (_load_csv parse_csv path (sep o) (encoding o) (snd (mkdir_parents out w))) = inr df /\
    let d := report_analysis core_config o df in
    w_fs w' !! path_join out "summary.csv" = Some (File (summary_to_csv (rd_summary d))) /\
    w_fs w' !! path_join out "report.md" =
      Some (File (render_markdown (path_name path) o d)) /\
    w_fs w' !! path_join out "missing.csv" =
      (if nonempty (rd_missing d) then Some (File (missing_to_csv (rd_missing d)))
       else w_fs w !! path_join out "missing.csv") /\
    w_fs w' !! path_join out "correlation.csv" =
      (if cm_empty (rd_corr d) then w_fs w !! path_join out "correlation.csv"
       else Some (File (corr_to_csv (rd_corr d)))).
Proof.
  intros Ksave Khist Kmiss Kheat Hrun out.
  destruct (report_steps _ _ _ _ _ _ _ _ _ _ _ _ _ _ _ Hrun)
    as (w1 & df & w2 & w3 & w4 & w5 & w6 & w7 & w8 & w9 & w10 & Hsteps).
  cbv zeta in Hsteps. fold out in Hsteps.
  destruct Hsteps as (Hmk & Hload & H3 & H4 & H5 & H6 & H7 & H8 & H9 & H10 & Hfs & _).
  exists df. rewrite Hmk. cbn [snd]. rewrite Hload. split; [reflexivity|]. cbv zeta.
  set (d := report_analysis core_config o df) in *.
  (* the file system, step by step *)
  assert (F1 : forall name, w_fs w1 !! path_join out name = w_fs w !! path_join out name)
    by (intros name; apply (mkdir_parents_other out _ w w1 Hmk), path_join_not_prefix).
  assert (F2 : w_fs w2 = w_fs w1).
  { pose proof (load_csv_world parse_csv path (sep o) (encoding o) w1) as Hw.
    cbv zeta in Hw. rewrite Hload in Hw. exact (proj1 Hw). }
  apply write_file_ok in H3 as [F3 _]. apply when_write_ok in H4 as F4.
  apply when_write_ok in H5 as F5. apply write_file_ok in H7 as [F7 _].
  assert (K : forall p, In p (report_files out) ->
                w_fs w6 !! p = w_fs w5 !! p /\ w_fs w10 !! p = w_fs w7 !! p).
  { intros p Hp. split.
    - pose proof (Ksave (rd_top_cats d) p Hp w5) as K6.
      fold out in K6. rewrite H6 in K6. exact K6.
    - pose proof (Khist df (max_hist_columns o) p Hp w7) as K8. fold out in K8.
      rewrite H8 in K8.
      pose proof (Kmiss df p Hp w8) as K9. fold out in K9.
      rewrite H9 in K9.
      pose proof (Kheat df p Hp w9) as K10. fold out in K10.
      rewrite H10 in K10.
      cbn [snd] in *. congruence. }
  assert (Ns : forall a b : string, a <> b -> path_join out a <> path_join out b)
    by (intros a b; apply path_join_inj).
  rewrite Hfs. unfold report_files in K.
  split; [|split; [|split]].
  - destruct (K (path_join out "summary.csv") ltac:(cbn; tauto)) as [K6 K10].
    rewrite K10, F7, lookup_insert_ne by (apply Ns; discriminate).
    cbn [snd] in K6. rewrite K6, F5.
    assert (E4 : w_fs w4 !! path_join out "summary.csv" =
                 Some (File (summary_to_csv (rd_summary d)))).
    { rewrite F4. destruct (nonempty (rd_missing d));
        [rewrite lookup_insert_ne by (apply Ns; discriminate)|];
        rewrite F3; apply lookup_insert_eq. }
    destruct (negb (cm_empty (rd_corr d)));
      [rewrite lookup_insert_ne by (apply Ns; discriminate)|]; exact E4.
  - destruct (K (path_join out "report.md") ltac:(cbn; tauto)) as [_ K10].
    rewrite K10, F7. apply lookup_insert_eq.
  - destruct (K (path_join out "missing.csv") ltac:(cbn; tauto)) as [K6 K10].
    rewrite K10, F7, lookup_insert_ne by (apply Ns; discriminate).
    cbn [snd] in K6. rewrite K6, F5.
    assert (E4 : w_fs w4 !! path_join out "missing.csv" =
                 if nonempty (rd_missing d) then Some (File (missing_to_csv (rd_missing d)))
                 else w_fs w !! path_join out "missing.csv").
    { rewrite F4. destruct (nonempty (rd_missing d)); [apply lookup_insert_eq|].
      rewrite F3, lookup_insert_ne by (apply Ns; discriminate). rewrite F2. apply F1. }
    destruct (negb (cm_empty (rd_corr d)));
      [rewrite lookup_insert_ne by (apply Ns; discriminate)|]; exact E4.
  - destruct (K (path_join out "correlation.csv") ltac:(cbn; tauto)) as [K6 K10].
    rewrite K10, F7, lookup_insert_ne by (apply Ns; discriminate).
    cbn [snd] in K6. rewrite K6, F5.
    destruct (cm_empty (rd_corr d)); cbn [negb]; [|apply lookup_insert_eq].
    rewrite F4. destruct (nonempty (rd_missing d));
      [rewrite lookup_insert_ne by (apply Ns; discriminate)|];
      rewrite F3, lookup_insert_ne by (apply Ns; discriminate); rewrite F2; apply F1.
Qed.

End ReportArtifacts.

(** ** The problematic columns *)

Lemma filter_sublist {A : Type} (p q : A -> bool) (l : list A) :
  (forall x, p x = true -> q x = true) ->
  List.filter p l `sublist_of` List.filter q l.
Proof.
  intros H. induction l as [|x l IH]; cbn [List.filter]; [constructor|].
  destruct (p x) eqn:Ep.
  - rewrite (H x Ep). constructor. exact IH.
  - destruct (q x); [constructor|]; exact IH.
Qed.

Lemma map_sublist {A B : Type} (f : A -> B) (l k : list A) :
  l `sublist_of` k -> map f l `sublist_of` map f k.
Proof. induction 1; cbn [map]; constructor; assumption. Qed.

Lemma filter_sublist_self {A : Type} (p : A -> bool) (l : list A) :
  List.filter p l `sublist_of` l.
Proof.
  induction l as [|x l IH]; cbn [List.filter]; [constructor|].
  destruct (p x); constructor; exact IH.
Qed.

(** X9.  The problematic columns of [report] are the rows of the missing
    table whose share reaches [min_missing_share], in table order: raising
    the threshold only removes columns, and a column whose share equals the
    threshold is listed. *)
Theorem problematic_cols_monotone (core_config : Config) (o1 o2 : ReportOptions)
    (df : table) :
  (min_missing_share o1 <= min_missing_share o2)%Q ->
  let cols o := rd_problematic_cols (report_analysis core_config o df) in
  cols o2 `sublist_of` cols o1 /\
  cols o1 `sublist_of` map mr_name (rd_missing (report_analysis core_config o1 df)) /\
  (forall r, In r (missing_table df) ->
     (mr_missing_share r == min_missing_share o1)%Q -> In (mr_name r) (cols o1)).
Proof.
  intros Hle cols. unfold cols, report_analysis. cbn [rd_problematic_cols rd_missing].
  destruct (missing_table df) as [|r0 l] eqn:E; cbn [nonempty].
  - split; [constructor|]. split; [constructor|]. intros r [].
  - split; [|split].
    + apply map_sublist, filter_sublist. intros r Hr.
      apply Qle_bool_iff in Hr. apply Qle_bool_iff. lra.
    + apply map_sublist, filter_sublist_self.
    + intros r Hr Heq. apply in_map, filter_In. split; [exact Hr|].
      apply Qle_bool_iff. lra.
Qed.

(** ** Writers that leave the files of [report] alone *)

Lemma keeps_bind {A B : Type} (p : Path) (m : IO A) (k : A -> IO B) :
  keeps p m -> (forall a, keeps p (k a)) -> keeps p (mbind k m).
Proof.
  intros Hm Hk w. unfold mbind, io_bind. specialize (Hm w).
  destruct (m w) as [[e|a] w1]; cbn [snd] in *; [exact Hm|].
  rewrite (Hk a w1). exact Hm.
Qed.

Lemma keeps_write_file (p q : Path) (content : string) :
  p <> q -> keeps p (write_file q content).
Proof.
  intros Hne w. unfold write_file.
  destruct (fs_lookup (w_fs w) (path_parent q)) as [[|c|cls msg]|]; try reflexivity.
  destruct (fs_lookup (w_fs w) q) as [[|c|cls msg]|]; cbn [snd w_fs log]; try reflexivity;
    apply lookup_insert_ne; congruence.
Qed.

Lemma keeps_mkdir_parents (p d : Path) : ~ In p (prefixes d) -> keeps p (mkdir_parents d).
Proof.
  intros Hp w. destruct (mkdir_parents d w) as [[e|[]] w1] eqn:E; cbn [snd].
  - unfold mkdir_parents in E. destruct (List.find _ (prefixes d)); [|discriminate].
    injection E as _ <-. reflexivity.
  - exact (mkdir_parents_other d p w w1 E Hp).
Qed.

Lemma keeps_for_each {A : Type} (p : Path) (f : A -> IO unit) (l : list A) :
  (forall x, keeps p (f x)) -> keeps p (for_each f l).
Proof.
  intros Hf. induction l as [|x l IH]; cbn [for_each]; [intros w; reflexivity|].
  apply keeps_bind; [apply Hf|intros _; exact IH].
Qed.

Lemma report_files_joined (out p : Path) :
  In p (report_files out) ->
  exists name, p = path_join out name /\
    (name = "summary.csv" \/ name = "missing.csv" \/ name = "correlation.csv" \/
     name = "report.md").
Proof.
  intros [<-|[<-|[<-|[<-|[]]]]]; eexists; (split; [reflexivity|tauto]).
Qed.

(** A chart written to a file of another name. *)
Lemma chart_writer_keeps (out : Path) (name : string) (df : table) (p : Path) :
  ~ In name ["summary.csv"; "missing.csv"; "correlation.csv"; "report.md"] ->
  In p (report_files out) -> keeps p (chart_writer df (path_join out name)).
Proof.
  intros Hname Hp. apply report_files_joined in Hp as (n & -> & Hn).
  apply keeps_write_file, path_join_inj. intros ->. apply Hname.
  destruct Hn as [-> | [-> | [-> | ->]]]; cbn; tauto.
Qed.

Lemma histogram_writer_keeps (out : Path) (df : table) (k : Z) (p : Path) :
  In p (report_files out) -> keeps p (histogram_writer df out k).
Proof.
  intros Hp. apply report_files_joined in Hp as (n & -> & Hn).
  apply keeps_for_each. intros c. apply keeps_write_file, path_join_inj.
  destruct Hn as [-> | [-> | [-> | ->]]]; discriminate.
Qed.

Lemma table_writer_keeps (out : Path) (tc : list (string * list CategoryEntry)) (p : Path) :
  In p (report_files out) -> keeps p (table_writer tc (path_join out "top_categories")).
Proof.
  intros Hp. apply report_files_joined in Hp as (n & -> & Hn).
  assert (Hlen : forall q name, length (path_join q name) = Datatypes.S (length q))
    by (intros q name; unfold path_join; rewrite length_app; cbn; lia).
  apply keeps_bind.
  - apply keeps_mkdir_parents. unfold prefixes. rewrite in_map_iff.
    intros (j & E & Hj). apply in_seq in Hj. rewrite Hlen in Hj.
    destruct (decide (j = Datatypes.S (length out))) as [->|Hne].
    + rewrite <- (Hlen out "top_categories"), firstn_all in E.
      apply path_join_inj in E; [exact E|].
      destruct Hn as [-> | [-> | [-> | ->]]]; discriminate.
    + apply (f_equal (@length string)) in E. rewrite length_firstn, !Hlen in E. lia.
  - intros _. apply keeps_for_each. intros t. apply keeps_write_file.
    intros E. apply (f_equal (@length string)) in E. rewrite !Hlen in E. lia.
Qed.

(** ** Concrete runs of the commands *)

Lemma head_negative_witness :
  (-1 < 0)%Z /\
  _load_csv sample_parse ["data.csv"] "," "utf-8" sample_world =
    (inr sample_df, log (EvReadCsv ["data.csv"] "," "utf-8") sample_world) /\
  fst (head sample_parse (fun _ => "") ["data.csv"] (-1) "," "utf-8" sample_world) = inr tt /\
  n_rows (df_head (-1) sample_df) = 3%nat.
Proof.
  assert (Hn : (-1 < 0)%Z) by lia.
  pose proof (head_negative sample_parse (fun _ => "") ["data.csv"] (-1) "," "utf-8"
                sample_world _ sample_df Hn sample_load) as H.
  cbv zeta in H. destruct H as (H1 & _ & _ & H4 & _).
  split; [exact Hn|]. split; [exact sample_load|]. split; [exact H1|exact H4].
Defined.

Lemma report_mkdir_failure_witness :
  In ["reports"] (prefixes (out_dir default_options)) /\
  is_file (fs_lookup (w_fs blocked_world) ["reports"]) = true /\
  exists e,
    report sample_parse (fun _ => "") (fun _ => "") (fun _ => "") (fun _ _ _ => "")
           (fun _ => "") no_tables no_histograms no_plot no_plot sample_config
           ["data.csv"] default_options blocked_world =
      (inl e, {| w_fs := w_fs blocked_world;
                 w_trace := w_trace blocked_world ++ [EvMkdir (out_dir default_options)] |}) /\
    is_bad_parameter e = false.
Proof.
  assert (H1 : In ["reports"] (prefixes (out_dir default_options))) by (left; reflexivity).
  assert (H2 : is_file (fs_lookup (w_fs blocked_world) ["reports"]) = true)
    by (vm_compute; reflexivity).
  split; [exact H1|]. split; [exact H2|].
  exact (report_mkdir_failure sample_parse (fun _ => "") (fun _ => "") (fun _ => "")
           (fun _ _ _ => "") (fun _ => "") no_tables no_histograms no_plot no_plot
           sample_config ["data.csv"] default_options blocked_world ["reports"] H1 H2).
Defined.

Lemma reports_mkdir_again :
  mkdir_parents (out_dir default_options) reports_world =
  (inr tt, snd (mkdir_parents (out_dir default_options) reports_world)).
Proof.
  rewrite (surjective_pairing (mkdir_parents _ _)) at 1. f_equal; vm_compute; reflexivity.
Qed.

Lemma reports_load_again :
  _load_csv sample_parse ["data.csv"] (sep default_options) (encoding default_options)
    (snd (mkdir_parents (out_dir default_options) reports_world)) =
  (inl (BadParameter "Файл 'data.csv' не найден" None),
   snd (mkdir_parents (out_dir default_options) reports_world)).
Proof.
  rewrite load_csv_missing by (vm_compute; reflexivity). reflexivity.
Qed.

Lemma report_load_failure_unchanged_iff_witness :
  mkdir_parents (out_dir default_options) reports_world =
    (inr tt, snd (mkdir_parents (out_dir default_options) reports_world)) /\
  _load_csv sample_parse ["data.csv"] (sep default_options) (encoding default_options)
    (snd (mkdir_parents (out_dir default_options) reports_world)) =
    (inl (BadParameter "Файл 'data.csv' не найден" None),
     snd (mkdir_parents (out_dir default_options) reports_world)) /\
  w_fs (snd (mkdir_parents (out_dir default_options) reports_world)) = w_fs reports_world.
Proof.
  split; [exact reports_mkdir_again|]. split; [exact reports_load_again|].
  apply (proj2 (report_load_failure_unchanged_iff sample_parse (fun _ => "") (fun _ => "")
                  (fun _ => "") (fun _ _ _ => "") (fun _ => "") no_tables no_histograms
                  no_plot no_plot sample_config ["data.csv"] default_options
                  reports_world _ _ _ reports_mkdir_again reports_load_again)).
  intros q [<-|[]]. vm_compute. reflexivity.
Defined.

Lemma rerun_ok :
  report city_parse (fun _ => "s") (fun _ => "m") (fun _ => "c") (fun _ _ _ => "r")
         (fun _ => "") no_tables no_histograms no_plot no_plot sample_config
         ["data.csv"] default_options rerun_world =
  (inr tt,
   snd (report city_parse (fun _ => "s") (fun _ => "m") (fun _ => "c") (fun _ _ _ => "r")
          (fun _ => "") no_tables no_histograms no_plot no_plot sample_config
          ["data.csv"] default_options rerun_world)).
Proof.
  rewrite (surjective_pairing (report _ _ _ _ _ _ _ _ _ _ _ _ _ _)) at 1. f_equal; vm_compute; reflexivity.
Qed.

Lemma rerun_load :
  fst (_load_csv city_parse ["data.csv"] (sep default_options) (encoding default_options)
         (snd (mkdir_parents (out_dir default_options) rerun_world))) = inr city_df.
Proof.
  rewrite (load_csv_found city_parse _ _ _ _ (File "city")) by (vm_compute; reflexivity).
  cbn [fst]. rewrite pd_read_csv_result. cbn [fst].
  replace (fs_lookup _ ["data.csv"]) with (Some (File "city")) by (vm_compute; reflexivity).
  reflexivity.
Qed.

Lemma report_success_lines_witness :
  fst (report city_parse (fun _ => "s") (fun _ => "m") (fun _ => "c") (fun _ _ _ => "r")
         (fun _ => "") no_tables no_histograms no_plot no_plot sample_config
         ["data.csv"] default_options rerun_world) = inr tt /\
  exists before,
    w_trace (snd (report city_parse (fun _ => "s") (fun _ => "m") (fun _ => "c")
                    (fun _ _ _ => "r") (fun _ => "") no_tables no_histograms no_plot no_plot
                    sample_config ["data.csv"] default_options rerun_world)) =
    before ++ map EvEcho (report_done default_options).
Proof.
  split; [rewrite rerun_ok; reflexivity|].
  destruct (report_success_lines city_parse (fun _ => "s") (fun _ => "m") (fun _ => "c")
              (fun _ _ _ => "r") (fun _ => "") no_tables no_histograms no_plot no_plot
              sample_config ["data.csv"] default_options rerun_world _ rerun_ok)
    as (df & before & Hload & Htr).
  rewrite rerun_load in Hload. injection Hload as <-.
  exists before. rewrite Htr. cbv zeta.
  replace (rd_problematic_cols (report_analysis sample_config default_options city_df))
    with (@nil string) by (vm_compute; reflexivity).
  rewrite app_nil_r. reflexivity.
Defined.

Lemma rerun_files_ok :
  report city_parse (fun _ => "s") (fun _ => "m") (fun _ => "c") (fun _ _ _ => "r")
         (fun _ => "") table_writer histogram_writer chart_writer chart_writer sample_config
         ["data.csv"] default_options rerun_world =
  (inr tt,
   snd (report city_parse (fun _ => "s") (fun _ => "m") (fun _ => "c") (fun _ _ _ => "r")
          (fun _ => "") table_writer histogram_writer chart_writer chart_writer sample_config
          ["data.csv"] default_options rerun_world)).
Proof.
  rewrite (surjective_pairing (report _ _ _ _ _ _ _ _ _ _ _ _ _ _)) at 1. f_equal; vm_compute; reflexivity.
Qed.

Lemma report_success_files_witness :
  fst (report city_parse (fun _ => "s") (fun _ => "m") (fun _ => "c") (fun _ _ _ => "r")
         (fun _ => "") table_writer histogram_writer chart_writer chart_writer sample_config
         ["data.csv"] default_options rerun_world) = inr tt /\
  (forall tc p, In p (report_files (out_dir default_options)) ->
     keeps p (table_writer tc (path_join (out_dir default_options) "top_categories"))) /\
  (forall df k p, In p (report_files (out_dir default_options)) ->
     keeps p (histogram_writer df (out_dir default_options) k)) /\
  (forall df p, In p (report_files (out_dir default_options)) ->
     keeps p (chart_writer df (path_join (out_dir default_options) "missing_matrix.png"))) /\
  (forall df p, In p (report_files (out_dir default_options)) ->
     keeps p (chart_writer df (path_join (out_dir default_options) "correlation_heatmap.png"))) /\
  let fs := w_fs (snd (report city_parse (fun _ => "s") (fun _ => "m") (fun _ => "c")
                         (fun _ _ _ => "r") (fun _ => "") table_writer histogram_writer
                         chart_writer chart_writer sample_config ["data.csv"] default_options
                         rerun_world)) in
  fs !! ["reports"; "summary.csv"] = Some (File "s") /\
  fs !! ["reports"; "report.md"] = Some (File "r") /\
  fs !! ["reports"; "missing.csv"] = Some (File "m") /\
  fs !! ["reports"; "correlation.csv"] = Some (File "old") /\
  fs !! ["reports"; "top_categories"; "city.csv"] = Some (File "csv") /\
  fs !! ["reports"; "missing_matrix.png"] = Some (File "png").
Proof.
  pose proof (table_writer_keeps (out_dir default_options)) as K1.
  pose proof (histogram_writer_keeps (out_dir default_options)) as K2.
  pose proof (fun df p =>
                chart_writer_keeps (out_dir default_options) "missing_matrix.png" df p
                  ltac:(intros [H|[H|[H|[H|[]]]]]; discriminate)) as K3.
  pose proof (fun df p =>
                chart_writer_keeps (out_dir default_options) "correlation_heatmap.png" df p
                  ltac:(intros [H|[H|[H|[H|[]]]]]; discriminate)) as K4.
  split; [rewrite rerun_files_ok; reflexivity|].
  split; [exact K1|]. split; [exact K2|]. split; [exact K3|]. split; [exact K4|].
  destruct (report_success_files city_parse (fun _ => "s") (fun _ => "m") (fun _ => "c")
              (fun _ _ _ => "r") (fun _ => "") table_writer histogram_writer chart_writer
              chart_writer sample_config ["data.csv"] default_options rerun_world _
              K1 K2 K3 K4 rerun_files_ok)
    as (df & Hload & Hs & Hr & Hm & Hc).
  rewrite rerun_load in Hload. injection Hload as <-.
  cbv zeta. split; [exact Hs|]. split; [exact Hr|]. split; [|split; [|split]].
  - refine (eq_trans Hm _). vm_compute. reflexivity.
  - refine (eq_trans Hc _). vm_compute. reflexivity.
  - vm_compute. reflexivity.
  - vm_compute. reflexivity.
Defined.

Lemma problematic_cols_monotone_witness :
  (min_missing_share default_options <= min_missing_share strict_options)%Q /\
  rd_problematic_cols (report_analysis sample_config strict_options sample_df)
    `sublist_of` rd_problematic_cols (report_analysis sample_config default_options sample_df).
Proof.
  assert (H : (min_missing_share default_options <= min_missing_share strict_options)%Q)
    by (unfold Qle; cbn; lia).
  split; [exact H|].
  exact (proj1 (problematic_cols_monotone sample_config default_options strict_options
                  sample_df H)).
Defined.

End CliRuns.
